(** * readagen: the popup's reader, as a state machine

    A shallow embedding of [entrypoints/popup/App.vue] (the first
    [<script setup>] block, the one whose template has the reader
    controls).  The refs and the two module-level variables of the script
    become the fields of one record; every function of the script becomes
    a function on that record; the host (tabs, script injection, speech
    engine, localStorage) is explicit data.  The function that the
    script runs in the page, the conditions of the template, and the
    second [<script setup>] block of the file follow the same way.  *)

From Stdlib Require Import ZArith NArith String DecimalString DecimalN.
From stdpp Require Import base option list gmap strings.

Local Open Scope string_scope.

(** ** Data *)

(** An element pushed by the in-page extraction function:
    [{ text, tag, isPriority }]. *)
Record Segment := mkSegment {
  text : string;
  tag : string;
  isPriority : bool
}.

(** A [SpeechSynthesisVoice], reduced to the three properties the script
    reads: [name], [lang], [default]. *)
Record Voice := mkVoice {
  voice_name : string;
  voice_lang : string;
  voice_default : bool
}.

#[global] Instance Segment_eq_dec : EqDecision Segment.
Proof. solve_decision. Defined.

#[global] Instance Voice_eq_dec : EqDecision Voice.
Proof. solve_decision. Defined.

(** A value caught by [catch (err)]: an [Error] with its message, or
    anything else. *)
Inductive Thrown :=
| ErrorObj (message : string)
| NonError.

(** The settlement of an awaited promise. *)
Inductive Settled (A : Type) :=
| Resolved (a : A)
| Rejected (e : Thrown).
Arguments Resolved {A} a.
Arguments Rejected {A} e.

(** A tab as [browser.tabs.query] reports it; only [id] is read
    ([None] is [undefined]). *)
Record Tab := mkTab { tab_id : option Z }.

(** The object the in-page function hands back.  A JS object: every
    property may be missing ([None] is [undefined]). *)
Record Article := mkArticle {
  a_error : option string;
  a_title : option string;
  a_content : option string;
  a_segments : option (list Segment);
  a_url : option string
}.

(** What the host answers to the three awaited calls of [getPageContent]:
    [tabs.query], the injection of readability.js, and the extraction
    script.  For the last one, [None] stands for a falsy [result],
    [result[0]] or [result[0].result]. *)
Record HostAnswers := mkHostAnswers {
  ans_tabs : Settled (list Tab);
  ans_inject : Settled unit;
  ans_extract : Settled (option Article)
}.

(** JS truthiness of a string that may be undefined. *)
Definition truthy (s : option string) : bool :=
  match s with
  | Some s => negb (String.eqb s "")
  | None => false
  end.

(** [String(v)], as [localStorage.setItem] applies it to its value. *)
Definition to_item (s : option string) : string :=
  match s with
  | Some s => s
  | None => "undefined"
  end.

(** [s.includes(sub)] *)
Definition includes (sub s : string) : bool :=
  match index 0 sub s with
  | Some _ => true
  | None => false
  end.

(** The localStorage keys of the script. *)
Definition key_rate : string := "wxt-speech-rate".
Definition key_pitch : string := "wxt-speech-pitch".
Definition key_voice : string := "wxt-speech-voice".
Definition key_content : string := "wxt-page-content".
Definition key_title : string := "wxt-page-title".
Definition key_url : string := "wxt-page-url".

Section Popup.

(** JS numbers, as far as the script uses them for rate and pitch: a type
    with the literal [1], [Number.prototype.toString] and [parseFloat].
    Equality on it is the one Vue uses to decide that a ref has changed. *)
Context {num : Type} `{!EqDecision num}.
Variable one : num.
Variable numToString : num -> string.
Variable parseFloat : string -> num.

(** A [SpeechSynthesisUtterance] as [speakCurrentSegment] builds it: the
    text, and the rate, pitch and voice assigned to it (plain field
    writes).  Its two handlers are the same closures for every utterance
    ([utterance_onend] and [utterance_onerror] below), so they are not
    stored. *)
Record Utterance := mkUtterance {
  utt_text : string;
  utt_rate : num;
  utt_pitch : num;
  utt_voice : option Voice
}.

(** [window.speechSynthesis]: the queue of utterances handed to [speak]
    and not yet finished (its head is the one in flight), and the
    [paused] flag. *)
Record Synth := mkSynth {
  pending : list Utterance;
  paused : bool
}.

Definition synth_idle : Synth := mkSynth [] false.

Definition speak (u : Utterance) (s : Synth) : Synth :=
  mkSynth (pending s ++ [u]) (paused s).

Definition cancel (s : Synth) : Synth :=
  mkSynth [] (paused s).

Definition pause (s : Synth) : Synth :=
  mkSynth (pending s) true.

Definition resume (s : Synth) : Synth :=
  mkSynth (pending s) false.

(** The refs of the script, its two [let] variables, and localStorage.
    [pageContent] and [pageTitle] are assigned from properties of the
    article, so they can hold [undefined] ([None]). *)
Record State := mkState {
  pageContent : option string;
  pageTitle : option string;
  isLoading : bool;
  error : string;
  isReading : bool;
  currentSpeechIndex : Z;
  contentSegments : list Segment;
  speechRate : num;
  speechPitch : num;
  speechVoice : string;
  availableVoices : list Voice;
  speechSynthesis : option Synth;
  speechUtterance : option Utterance;
  localStorage : gmap string string
}.

(** The state the script sets up before [onMounted] runs, over the
    localStorage left by earlier sessions. *)
Definition initial (ls : gmap string string) : State :=
  mkState (Some "") (Some "") false "" false 0 [] one one "" [] None None ls.

(** *** Field writes *)

Definition set_pageContent (v : option string) (st : State) : State :=
  mkState v (pageTitle st) (isLoading st) (error st) (isReading st)
    (currentSpeechIndex st) (contentSegments st) (speechRate st)
    (speechPitch st) (speechVoice st) (availableVoices st)
    (speechSynthesis st) (speechUtterance st) (localStorage st).

Definition set_pageTitle (v : option string) (st : State) : State :=
  mkState (pageContent st) v (isLoading st) (error st) (isReading st)
    (currentSpeechIndex st) (contentSegments st) (speechRate st)
    (speechPitch st) (speechVoice st) (availableVoices st)
    (speechSynthesis st) (speechUtterance st) (localStorage st).

Definition set_isLoading (v : bool) (st : State) : State :=
  mkState (pageContent st) (pageTitle st) v (error st) (isReading st)
    (currentSpeechIndex st) (contentSegments st) (speechRate st)
    (speechPitch st) (speechVoice st) (availableVoices st)
    (speechSynthesis st) (speechUtterance st) (localStorage st).

Definition set_error (v : string) (st : State) : State :=
  mkState (pageContent st) (pageTitle st) (isLoading st) v (isReading st)
    (currentSpeechIndex st) (contentSegments st) (speechRate st)
    (speechPitch st) (speechVoice st) (availableVoices st)
    (speechSynthesis st) (speechUtterance st) (localStorage st).

Definition set_isReading (v : bool) (st : State) : State :=
  mkState (pageContent st) (pageTitle st) (isLoading st) (error st) v
    (currentSpeechIndex st) (contentSegments st) (speechRate st)
    (speechPitch st) (speechVoice st) (availableVoices st)
    (speechSynthesis st) (speechUtterance st) (localStorage st).

Definition set_currentSpeechIndex (v : Z) (st : State) : State :=
  mkState (pageContent st) (pageTitle st) (isLoading st) (error st)
    (isReading st) v (contentSegments st) (speechRate st)
    (speechPitch st) (speechVoice st) (availableVoices st)
    (speechSynthesis st) (speechUtterance st) (localStorage st).

Definition set_contentSegments (v : list Segment) (st : State) : State :=
  mkState (pageContent st) (pageTitle st) (isLoading st) (error st)
    (isReading st) (currentSpeechIndex st) v (speechRate st)
    (speechPitch st) (speechVoice st) (availableVoices st)
    (speechSynthesis st) (speechUtterance st) (localStorage st).

Definition set_availableVoices (v : list Voice) (st : State) : State :=
  mkState (pageContent st) (pageTitle st) (isLoading st) (error st)
    (isReading st) (currentSpeechIndex st) (contentSegments st)
    (speechRate st) (speechPitch st) (speechVoice st) v
    (speechSynthesis st) (speechUtterance st) (localStorage st).

Definition set_speechSynthesis (v : option Synth) (st : State) : State :=
  mkState (pageContent st) (pageTitle st) (isLoading st) (error st)
    (isReading st) (currentSpeechIndex st) (contentSegments st)
    (speechRate st) (speechPitch st) (speechVoice st) (availableVoices st)
    v (speechUtterance st) (localStorage st).

Definition set_speechUtterance (v : option Utterance) (st : State) : State :=
  mkState (pageContent st) (pageTitle st) (isLoading st) (error st)
    (isReading st) (currentSpeechIndex st) (contentSegments st)
    (speechRate st) (speechPitch st) (speechVoice st) (availableVoices st)
    (speechSynthesis st) v (localStorage st).

(** [localStorage.setItem(k, v)] *)
Definition setItem (k v : string) (st : State) : State :=
  mkState (pageContent st) (pageTitle st) (isLoading st) (error st)
    (isReading st) (currentSpeechIndex st) (contentSegments st)
    (speechRate st) (speechPitch st) (speechVoice st) (availableVoices st)
    (speechSynthesis st) (speechUtterance st)
    (<[k := v]> (localStorage st)).

(** [localStorage.getItem(k)] ([None] is [null]) *)
Definition getItem (k : string) (st : State) : option string :=
  localStorage st !! k.

Definition set_speechRate (v : num) (st : State) : State :=
  mkState (pageContent st) (pageTitle st) (isLoading st) (error st)
    (isReading st) (currentSpeechIndex st) (contentSegments st)
    v (speechPitch st) (speechVoice st) (availableVoices st)
    (speechSynthesis st) (speechUtterance st) (localStorage st).

Definition set_speechPitch (v : num) (st : State) : State :=
  mkState (pageContent st) (pageTitle st) (isLoading st) (error st)
    (isReading st) (currentSpeechIndex st) (contentSegments st)
    (speechRate st) v (speechVoice st) (availableVoices st)
    (speechSynthesis st) (speechUtterance st) (localStorage st).

Definition set_speechVoice (v : string) (st : State) : State :=
  mkState (pageContent st) (pageTitle st) (isLoading st) (error st)
    (isReading st) (currentSpeechIndex st) (contentSegments st)
    (speechRate st) (speechPitch st) v (availableVoices st)
    (speechSynthesis st) (speechUtterance st) (localStorage st).

(** ** The settings and their watchers

    [watch(speechRate, (newValue) => localStorage.setItem(..))] and its
    two siblings.  A write of [speechRate.value] that changes the value
    runs the watcher with the new value; a write of the value the ref
    already holds is dropped by the ref itself and no watcher runs.  The
    watcher is run here with the write: nothing of the script runs between
    a write and the flush of its watcher. *)

Definition write_speechRate (v : num) (st : State) : State :=
  if decide (v = speechRate st) then st
  else setItem key_rate (numToString v) (set_speechRate v st).

Definition write_speechPitch (v : num) (st : State) : State :=
  if decide (v = speechPitch st) then st
  else setItem key_pitch (numToString v) (set_speechPitch v st).

Definition write_speechVoice (v : string) (st : State) : State :=
  if decide (v = speechVoice st) then st
  else setItem key_voice v (set_speechVoice v st).

(** ** Start-up *)

(** What the window offers when the popup is mounted:
    ['speechSynthesis' in window] and the result of [getVoices()]. *)
Record Window := mkWindow {
  win_speechSynthesis : bool;
  win_voices : list Voice
}.

(** The inner [getVoices] of [initSpeechSynthesis], with the list that
    [speechSynthesis.getVoices()] returns. *)
Definition getVoices (voices : list Voice) (st : State) : State :=
  if negb (length voices =? 0)%nat then
    let st1 := set_availableVoices voices st in
    if negb (truthy (Some (speechVoice st1))) && negb (length voices =? 0)%nat then
      let found :=
        find (fun voice => includes "en" (voice_lang voice) && voice_default voice)
             voices in
      match (match found with Some v => Some v | None => head voices end) with
      | Some defaultVoice => write_speechVoice (voice_name defaultVoice) st1
      | None => st1
      end
    else st1
  else st.

Definition initSpeechSynthesis (win : Window) (st : State) : State :=
  if win_speechSynthesis win then
    getVoices (win_voices win) (set_speechSynthesis (Some synth_idle) st)
  else set_error "Speech synthesis not supported in this browser" st.

Definition onMounted (win : Window) (st : State) : State :=
  let st1 :=
    match getItem key_rate st with
    | Some savedRate => write_speechRate (parseFloat savedRate) st
    | None => st
    end in
  let st2 :=
    match getItem key_pitch st1 with
    | Some savedPitch => write_speechPitch (parseFloat savedPitch) st1
    | None => st1
    end in
  let st3 :=
    match getItem key_voice st2 with
    | Some savedVoice =>
        if truthy (Some savedVoice) then write_speechVoice savedVoice st2 else st2
    | None => st2
    end in
  initSpeechSynthesis win st3.

(** The [voiceschanged] event, delivered to the handler that
    [initSpeechSynthesis] registered (so only once an engine is there). *)
Definition voiceschanged (voices : list Voice) (st : State) : State :=
  match speechSynthesis st with
  | Some _ => getVoices voices st
  | None => st
  end.

(** ** Extraction *)

(** The statements of [getPageContent] before its first [await]. *)
Definition getPageContent_begin (st : State) : State :=
  set_contentSegments []
    (set_pageContent (Some "")
      (set_error "" (set_isLoading true st))).

(** How the [try] block ends. *)
Inductive Attempt :=
| Completed (st : State)
| Raised (e : Thrown).

(** [!activeTab || !activeTab.id] *)
Definition no_active_tab (tabs : list Tab) : bool :=
  match head tabs with
  | None => true
  | Some activeTab =>
      match tab_id activeTab with
      | None => true
      | Some id => (id =? 0)%Z
      end
  end.

(** The [try] block.  Every [throw] and every rejection comes before the
    first write, so a raised attempt carries no state. *)
Definition extract_try (ans : HostAnswers) (st : State) : Attempt :=
  match ans_tabs ans with
  | Rejected e => Raised e
  | Resolved tabs =>
      if no_active_tab tabs then Raised (ErrorObj "No active tab found")
      else
        match ans_inject ans with
        | Rejected e => Raised e
        | Resolved _ =>
            match ans_extract ans with
            | Rejected e => Raised e
            | Resolved None => Raised (ErrorObj "Failed to extract content")
            | Resolved (Some article) =>
                if truthy (a_error article) then
                  Raised (ErrorObj (to_item (a_error article)))
                else
                  let st1 := set_pageTitle (a_title article) st in
                  let st2 := set_pageContent (a_content article) st1 in
                  let st3 :=
                    set_contentSegments
                      (match a_segments article with
                       | Some segments => segments
                       | None => []
                       end) st2 in
                  Completed
                    (setItem key_url (to_item (a_url article))
                      (setItem key_title (to_item (a_title article))
                        (setItem key_content (to_item (a_content article)) st3)))
            end
        end
  end.

(** [err instanceof Error ? err.message : 'Unknown error occurred'] *)
Definition error_text (e : Thrown) : string :=
  match e with
  | ErrorObj message => message
  | NonError => "Unknown error occurred"
  end.

(** The rest of [getPageContent], run when the host has answered: the
    [try] block, its [catch] and its [finally]. *)
Definition getPageContent_finish (ans : HostAnswers) (st : State) : State :=
  set_isLoading false
    (match extract_try ans st with
     | Completed st' => st'
     | Raised e => set_error (error_text e) st
     end).

(** A call of [getPageContent] with nothing else happening while it
    waits. *)
Definition getPageContent (ans : HostAnswers) (st : State) : State :=
  getPageContent_finish ans (getPageContent_begin st).

(** ** The player *)

(** How a call of one of the script's functions ends: it returns, or an
    exception leaves it (a [TypeError] on a property of [undefined] or of
    [null]).  Either way the writes made so far stay. *)
Inductive Outcome :=
| Returned (st : State)
| Threw (st : State).

Definition state_of (o : Outcome) : State :=
  match o with
  | Returned st => st
  | Threw st => st
  end.

Definition returns (o : Outcome) : bool :=
  match o with
  | Returned _ => true
  | Threw _ => false
  end.

(** [contentSegments.value[i]]: [undefined] ([None]) outside the list. *)
Definition segment_at (i : Z) (l : list Segment) : option Segment :=
  if (i <? 0)%Z then None else l !! Z.to_nat i.

(** The voice put on the utterance: the available voice whose name is
    [speechVoice], if [speechVoice] is set and there is one. *)
Definition selectedVoice (st : State) : option Voice :=
  if truthy (Some (speechVoice st)) then
    find (fun voice => String.eqb (voice_name voice) (speechVoice st))
         (availableVoices st)
  else None.

(** The utterance built for a segment from the current settings. *)
Definition utterance_of (st : State) (segment : Segment) : Utterance :=
  mkUtterance (text segment) (speechRate st) (speechPitch st) (selectedVoice st).

(** [speakCurrentSegment] *)
Definition speakCurrentSegment (st : State) : Outcome :=
  if negb (isReading st)
     || (Z.of_nat (length (contentSegments st)) <=? currentSpeechIndex st)%Z
  then Returned (set_isReading false st)
  else
    match segment_at (currentSpeechIndex st) (contentSegments st) with
    | None => Threw st
    | Some segment =>
        let st1 := set_speechUtterance (Some (utterance_of st segment)) st in
        match speechSynthesis st1 with
        | None => Threw st1
        | Some synth =>
            Returned
              (set_speechSynthesis (Some (speak (utterance_of st segment) synth)) st1)
        end
    end.

(** [speechUtterance.onend] *)
Definition utterance_onend (st : State) : Outcome :=
  speakCurrentSegment
    (set_currentSpeechIndex (currentSpeechIndex st + 1)%Z st).

(** [speechUtterance.onerror] *)
Definition utterance_onerror (st : State) : State :=
  set_isReading false (set_error "Error during speech synthesis" st).

(** [stopReading] *)
Definition stopReading (st : State) : State :=
  match speechSynthesis st with
  | Some synth =>
      set_isReading false (set_speechSynthesis (Some (cancel synth)) st)
  | None => st
  end.

(** [startReading] *)
Definition startReading (st : State) : Outcome :=
  if (length (contentSegments st) =? 0)%nat then
    Returned (set_error "No content to read" st)
  else
    match speechSynthesis st with
    | None => Returned (set_error "Speech synthesis not available" st)
    | Some _ =>
        let st1 := stopReading st in
        let st2 :=
          if (Z.of_nat (length (contentSegments st1)) <=? currentSpeechIndex st1)%Z
          then set_currentSpeechIndex 0 st1
          else st1 in
        speakCurrentSegment (set_isReading true st2)
    end.

(** [togglePause] *)
Definition togglePause (st : State) : State :=
  match speechSynthesis st with
  | None => st
  | Some synth =>
      if paused synth then set_speechSynthesis (Some (resume synth)) st
      else set_speechSynthesis (Some (pause synth)) st
  end.

(** [nextSegment] *)
Definition nextSegment (st : State) : Outcome :=
  if negb (isReading st) then Returned st
  else
    let st1 := stopReading st in
    startReading (set_currentSpeechIndex (currentSpeechIndex st1 + 1)%Z st1).

(** [prevSegment] *)
Definition prevSegment (st : State) : Outcome :=
  if negb (isReading st) then Returned st
  else
    let st1 := stopReading st in
    startReading
      (set_currentSpeechIndex (Z.max 0 (currentSpeechIndex st1 - 1)) st1).

(** ** The engine's signals

    The engine signals the end (or an error) of the utterance in flight,
    the head of its queue, and drops it; with nothing in flight there is
    no signal.  [cancel] drops the queue without a signal. *)

Definition in_flight (st : State) : option Utterance :=
  match speechSynthesis st with
  | Some synth => head (pending synth)
  | None => None
  end.

Definition drop_in_flight (st : State) : State :=
  match speechSynthesis st with
  | Some synth =>
      set_speechSynthesis (Some (mkSynth (tail (pending synth)) (paused synth))) st
  | None => st
  end.

Definition signal_end (st : State) : Outcome :=
  match in_flight st with
  | Some _ => utterance_onend (drop_in_flight st)
  | None => Returned st
  end.

Definition signal_error (st : State) : State :=
  match in_flight st with
  | Some _ => utterance_onerror (drop_in_flight st)
  | None => st
  end.

(** [playback fuel st] lets the engine signal the end of up to [fuel]
    utterances in turn.  It records, for each one, the cursor at which it
    was in flight and the utterance itself, and stops early when nothing
    is in flight any more or a handler throws. *)
Fixpoint playback (fuel : nat) (st : State) : list (Z * Utterance) * Outcome :=
  match fuel with
  | O => ([], Returned st)
  | S fuel' =>
      match in_flight st with
      | None => ([], Returned st)
      | Some u =>
          match signal_end st with
          | Returned st' =>
              let (spoken, o) := playback fuel' st' in
              ((currentSpeechIndex st, u) :: spoken, o)
          | Threw st' => ([(currentSpeechIndex st, u)], Threw st')
          end
      end
  end.

(** ** Everything that can happen to the mounted popup *)

Inductive Op :=
| VoicesChanged (voices : list Voice)
| ExtractBegin
| ExtractFinish (ans : HostAnswers)
| Start
| Stop
| TogglePause
| Next
| Previous
| UtteranceEnd
| UtteranceError
| SetRate (v : num)
| SetPitch (v : num)
| SetVoice (v : string).

Definition run_op (op : Op) (st : State) : Outcome :=
  match op with
  | VoicesChanged voices => Returned (voiceschanged voices st)
  | ExtractBegin => Returned (getPageContent_begin st)
  | ExtractFinish ans => Returned (getPageContent_finish ans st)
  | Start => startReading st
  | Stop => Returned (stopReading st)
  | TogglePause => Returned (togglePause st)
  | Next => nextSegment st
  | Previous => prevSegment st
  | UtteranceEnd => signal_end st
  | UtteranceError => Returned (signal_error st)
  | SetRate v => Returned (write_speechRate v st)
  | SetPitch v => Returned (write_speechPitch v st)
  | SetVoice v => Returned (write_speechVoice v st)
  end.

(** An exception that leaves a handler is reported by the browser and the
    popup goes on from the state the handler left. *)
Definition step (op : Op) (st : State) : State :=
  state_of (run_op op st).

Definition run (ops : list Op) (st : State) : State :=
  foldl (fun st op => step op st) st ops.

(** The operations of the player proper. *)
Definition player_op (op : Op) : bool :=
  match op with
  | Start | Stop | TogglePause | Next | Previous
  | UtteranceEnd | UtteranceError => true
  | _ => false
  end.

(** The popup right after it is mounted in window [win] over the stored
    items [ls], and the states it can get to from there. *)
Definition mounted (ls : gmap string string) (win : Window) : State :=
  onMounted win (initial ls).

Definition reachable (st : State) : Prop :=
  exists ls win ops, st = run ops (mounted ls win).

(** What holds of the cursor and of the engine's queue in every reachable
    state (see [reachable_well_formed]). *)
Definition well_formed (st : State) : Prop :=
  (0 <= currentSpeechIndex st)%Z
  /\ (isReading st = true ->
      exists synth, speechSynthesis st = Some synth
                    /\ (length (pending synth) <= 1)%nat)
  /\ (isReading st = false ->
      forall synth, speechSynthesis st = Some synth -> pending synth = []).

(** What a fresh mount reads back from the stored items agrees with the
    settings in use. *)
Definition rate_saved (st : State) : Prop :=
  match getItem key_rate st with
  | Some s => parseFloat s = speechRate st
  | None => speechRate st = one
  end.

Definition pitch_saved (st : State) : Prop :=
  match getItem key_pitch st with
  | Some s => parseFloat s = speechPitch st
  | None => speechPitch st = one
  end.

Definition voice_saved (st : State) : Prop :=
  match getItem key_voice st with
  | Some s => s = speechVoice st
  | None => speechVoice st = ""
  end.

Definition settings_saved (st : State) : Prop :=
  rate_saved st /\ pitch_saved st /\ voice_saved st.

(** ** The template

    What the template of the component renders and offers in a state. *)

(** The six buttons. *)
Inductive Button :=
| ExtractContent
| StartReading
| StopButton
| PauseResume
| PreviousButton
| NextButton.

(** [v-if="contentSegments.length > 0"] on the reader controls. *)
Definition reader_controls (st : State) : bool :=
  (0 <? length (contentSegments st))%nat.

(** A button can be clicked when it is rendered and not [:disabled]. *)
Definition button_enabled (b : Button) (st : State) : bool :=
  match b with
  | ExtractContent => negb (isLoading st)
  | StartReading => reader_controls st && negb (isReading st)
  | StopButton | PauseResume | PreviousButton | NextButton =>
      reader_controls st && negb (negb (isReading st))
  end.

(** The [@click] handler of a button (for [ExtractContent], the part of
    it that runs with the click). *)
Definition click (b : Button) (st : State) : Outcome :=
  match b with
  | ExtractContent => Returned (getPageContent_begin st)
  | StartReading => startReading st
  | StopButton => Returned (stopReading st)
  | PauseResume => Returned (togglePause st)
  | PreviousButton => prevSegment st
  | NextButton => nextSegment st
  end.

(** The "Now Reading" panel:
    [v-if="isReading && currentSpeechIndex < contentSegments.length"],
    inside the reader controls. *)
Definition now_reading_shown (st : State) : bool :=
  reader_controls st
  && (isReading st
      && (currentSpeechIndex st <? Z.of_nat (length (contentSegments st)))%Z).

(** [contentSegments[currentSpeechIndex].text], the text the panel
    renders; [None] where the segment is [undefined] and the rendering
    throws. *)
Definition now_reading_text (st : State) : option string :=
  text <$> segment_at (currentSpeechIndex st) (contentSegments st).



(** ** Signals for cancelled utterances

    [cancel] takes utterances out of the engine's queue, but their
    handlers stay set, and an engine may still signal for them: the Web
    Speech API has an error signal ("interrupted" or "canceled") for an
    utterance that [cancel] removed.  The handlers are closures over the
    refs, so a late signal runs [utterance_onerror] (or [utterance_onend])
    on the state of that moment and leaves the queue as it is.  A late
    signal needs an utterance that was cancelled before; allowing one at
    any moment only adds states. *)
Inductive Happening :=
| Does (op : Op)
| LateEnd
| LateError.

Definition happen (h : Happening) (st : State) : State :=
  match h with
  | Does op => step op st
  | LateEnd => state_of (utterance_onend st)
  | LateError => utterance_onerror st
  end.

Definition happenings (hs : list Happening) (st : State) : State :=
  foldl (fun st h => happen h st) st hs.

(** The states the popup can get to when the engine may also signal
    late. *)
Definition attainable (st : State) : Prop :=
  exists ls win hs, st = happenings hs (mounted ls win).

(** The engine has at most one utterance queued. *)
Definition short_queue (st : State) : Prop :=
  forall synth, speechSynthesis st = Some synth ->
    (length (pending synth) <= 1)%nat.

End Popup.

(** ** The function run in the page

    The [func] that [getPageContent] hands to [executeScript].  Of the
    page it sees what Readability and the DOM give it: whether anything
    threw, whether [parse()] gave an article, and the elements that
    [querySelectorAll('p, h1, h2, h3, h4, h5, h6, li')] finds in the
    article's content, in document order. *)

Record Element := mkElement {
  tagName : string;
  textContent : string
}.

Inductive PageRun :=
| PageThrew (shown : string)
| PageNoArticle
| PageArticle (title content : option string) (contentElements : list Element)
              (href : string).

Section Page.

(** [String.prototype.trim] and [String.prototype.toLowerCase]. *)
Variable trim : string -> string.
Variable toLowerCase : string -> string.

(** The body of the [forEach] callback, on the segments pushed so far. *)
Definition push_element (segments : list Segment) (element : Element)
    : list Segment :=
  let text := trim (textContent element) in
  if (0 <? String.length text)%nat then
    let tag := toLowerCase (tagName element) in
    (segments ++ [mkSegment text tag (String.prefix "h" tag)])%list
  else segments.

Definition extract_segments (contentElements : list Element) : list Segment :=
  foldl push_element [] contentElements.

(** The object the function returns ([excerpt] and [byline], which the
    popup never reads, are left out).  [shown] is [err.toString()] of
    whatever was thrown inside its [try]. *)
Definition page_function (r : PageRun) : Article :=
  match r with
  | PageThrew shown => mkArticle (Some shown) None None None None
  | PageNoArticle => mkArticle (Some "Failed to parse content") None None None None
  | PageArticle title content contentElements href =>
      mkArticle None title content (Some (extract_segments contentElements))
        (Some href)
  end.

End Page.

(** ** The second script of the file

    The second [<script setup>] block of App.vue: a counter that is
    persisted, and an extraction that shows the page's paragraphs. *)
Module Second.

Definition key_count : string := "wxt-count".

(** What the in-page function sees of the document: its title, the
    [textContent] of the elements that
    [querySelectorAll('p, article, .article, .content, .post')] finds, in
    document order, the [innerHTML] of [main] or else of [body] ([None]
    when the document has neither), and the location. *)
Record Document := mkDocument {
  doc_title : string;
  doc_paragraphs : list string;
  doc_main : option string;
  doc_href : string
}.

(** The answers of the host to the two awaited calls of this script's
    [getPageContent]. *)
Record Answers := mkAnswers {
  ans_tabs : Settled (list Tab);
  ans_extract : Settled (option Article)
}.

Section Script.

(** The numbers of the counter: [0], [x + 1], [toString] and
    [parseInt(_, 10)]. *)
Context {num : Type} `{!EqDecision num}.
Variable zero : num.
Variable plus_one : num -> num.
Variable numToString : num -> string.
Variable parseInt : string -> num.
Variable trim : string -> string.

(** [s.length], the number of UTF-16 code units of a string. *)
Variable length16 : string -> nat.

Record State := mkState {
  count : num;
  pageContent : option string;
  isLoading : bool;
  error : string;
  localStorage : gmap string string
}.

Definition initial (ls : gmap string string) : State :=
  mkState zero (Some "") false "" ls.

Definition getItem (k : string) (st : State) : option string :=
  localStorage st !! k.

Definition setItem (k v : string) (st : State) : State :=
  mkState (count st) (pageContent st) (isLoading st) (error st)
    (<[k := v]> (localStorage st)).

(** A write of [count.value], with its watcher
    [localStorage.setItem('wxt-count', newValue.toString())], which runs
    when the value has changed. *)
Definition write_count (v : num) (st : State) : State :=
  if decide (v = count st) then st
  else setItem key_count (numToString v)
         (mkState v (pageContent st) (isLoading st) (error st) (localStorage st)).

Definition onMounted (st : State) : State :=
  match getItem key_count st with
  | Some savedCount => write_count (parseInt savedCount) st
  | None => st
  end.

(** [@click="count++"] *)
Definition increment (st : State) : State :=
  write_count (plus_one (count st)) st.

(** The statements of [getPageContent] before its first [await]. *)
Definition getPageContent_begin (st : State) : State :=
  mkState (count st) (Some "") true "" (localStorage st).

Inductive Attempt :=
| Completed (st : State)
| Raised (e : Thrown).

Definition extract_try (ans : Answers) (st : State) : Attempt :=
  match ans_tabs ans with
  | Rejected e => Raised e
  | Resolved tabs =>
      if no_active_tab tabs then Raised (ErrorObj "No active tab found")
      else
        match ans_extract ans with
        | Rejected e => Raised e
        | Resolved None => Raised (ErrorObj "Failed to extract content")
        | Resolved (Some article) =>
            let st1 :=
              mkState (count st) (a_content article) (isLoading st) (error st)
                (localStorage st) in
            Completed
              (setItem key_url (to_item (a_url article))
                (setItem key_title (to_item (a_title article))
                  (setItem key_content (to_item (a_content article)) st1)))
        end
  end.

Definition getPageContent_finish (ans : Answers) (st : State) : State :=
  let st' :=
    match extract_try ans st with
    | Completed st' => st'
    | Raised e =>
        mkState (count st) (pageContent st) (isLoading st) (error_text e)
          (localStorage st)
    end in
  mkState (count st') (pageContent st') false (error st') (localStorage st').

Definition getPageContent (ans : Answers) (st : State) : State :=
  getPageContent_finish ans (getPageContent_begin st).

(** The body of the [forEach] callback of [getReadableContent], on the
    content built so far. *)
Definition add_paragraph (content textContent : string) : string :=
  if truthy (Some textContent) && (20 <? length16 (trim textContent))%nat
  then content ++ "<p>" ++ textContent ++ "</p>"
  else content.

(** [getReadableContent]; [None] when it throws, on the [innerHTML] of a
    [main] that is [null]. *)
Definition getReadableContent (doc : Document) : option Article :=
  let content := foldl add_paragraph "" (doc_paragraphs doc) in
  if negb (truthy (Some content)) then
    match doc_main doc with
    | Some innerHTML =>
        Some (mkArticle None (Some (doc_title doc)) (Some innerHTML) None
                (Some (doc_href doc)))
    | None => None
    end
  else
    Some (mkArticle None (Some (doc_title doc)) (Some content) None
            (Some (doc_href doc))).

(** What can happen to the mounted component. *)
Inductive Op :=
| Increment
| ExtractBegin
| ExtractFinish (ans : Answers).

Definition step (op : Op) (st : State) : State :=
  match op with
  | Increment => increment st
  | ExtractBegin => getPageContent_begin st
  | ExtractFinish ans => getPageContent_finish ans st
  end.

Definition run (ops : list Op) (st : State) : State :=
  foldl (fun st op => step op st) st ops.

Definition mounted (ls : gmap string string) : State :=
  onMounted (initial ls).

End Script.

End Second.

(** ** A sample instance

    For the examples: the whole numbers among the JS numbers, printed and
    read back in decimal ([parse] is meant for the strings [print]
    produces; on anything else it gives 0). *)
Module Sample.

Definition print (n : N) : string :=
  NilZero.string_of_uint (N.to_uint n).

Definition parse (s : string) : N :=
  match NilZero.uint_of_string s with
  | Some d => N.of_uint d
  | None => 0%N
  end.

Definition p : string := "p".
Definition h1 : string := "h1".

(** The three segments of the spec's scenario. *)
Definition article_segments : list Segment :=
  [mkSegment "Intro" p false; mkSegment "Heading" h1 true; mkSegment "Body" p false].

Definition article : Article :=
  mkArticle None (Some "A title") (Some "<p>Intro</p>") (Some article_segments)
    (Some "https://example.org/").

Definition host_ok : HostAnswers :=
  mkHostAnswers (Resolved [mkTab (Some 7%Z)]) (Resolved tt) (Resolved (Some article)).

Definition host_no_tab : HostAnswers :=
  mkHostAnswers (Resolved []) (Resolved tt) (Resolved (Some article)).

Definition host_inject_fails : HostAnswers :=
  mkHostAnswers (Resolved [mkTab (Some 7%Z)])
    (Rejected (ErrorObj "Cannot access contents of the page")) (Resolved None).

Definition host_parse_fails : HostAnswers :=
  mkHostAnswers (Resolved [mkTab (Some 7%Z)]) (Resolved tt)
    (Resolved (Some (mkArticle (Some "Failed to parse content") None None None None))).

Definition alice : Voice := mkVoice "Alice" "en-US" true.
Definition bob : Voice := mkVoice "Bob" "fr-FR" false.

Definition window : Window := mkWindow true [bob; alice].
Definition window_mute : Window := mkWindow false [].

Definition run_sample : list (Op (num:=N)) -> State -> State :=
  run print.

(** The utterance of a text under the settings of the examples. *)
Definition utter (t : string) : Utterance :=
  mkUtterance t 1%N 1%N (Some alice).

(** A popup mounted over an empty store. *)
Definition fresh : State := mounted 1%N print parse ∅ window.

(** A popup mounted, over an empty store, in a window without speech
    synthesis, after a successful extraction. *)
Definition loaded_mute : State :=
  run print [ExtractBegin; ExtractFinish host_ok]
    (mounted 1%N print parse ∅ window_mute).

(** ... after a successful extraction of [article]. *)
Definition loaded : State :=
  run_sample [ExtractBegin; ExtractFinish host_ok] fresh.

(** ... reading its second segment. *)
Definition reading_heading : State :=
  run_sample [Start; UtteranceEnd] loaded.

(** ... reading its last segment. *)
Definition reading_body : State :=
  run_sample [Start; UtteranceEnd; UtteranceEnd] loaded.

(** ... stopped while its last segment was being read. *)
Definition stopped_at_body : State :=
  run_sample [Stop] reading_body.

(** ... after the engine failed on the second segment. *)
Definition failed_at_heading : State :=
  run_sample [UtteranceError] reading_heading.

(** ... reading its first segment. *)
Definition reading_intro : State :=
  run_sample [Start] loaded.

(** ... after a click on Next while "Intro" was being read, and then the
    error signal of the engine for "Intro", which that click cancelled:
    "Heading" is queued and the player is not reading. *)
Definition interrupted : State :=
  happenings print [Does Start; Does Next; LateError] loaded.

(** ... reading its first segment, with a voice selected that the window
    does not have. *)
Definition reading_with_zira : State :=
  run_sample [SetVoice "Zira"; Start] loaded.

(** The ASCII part of [trim] and [toLowerCase]. *)
Definition white (c : Ascii.ascii) : bool :=
  (Ascii.nat_of_ascii c =? 32)%nat
  || ((9 <=? Ascii.nat_of_ascii c)%nat && (Ascii.nat_of_ascii c <=? 13)%nat).

Fixpoint trim_start (s : string) : string :=
  match s with
  | String c s' => if white c then trim_start s' else s
  | EmptyString => EmptyString
  end.

Definition reverse (s : string) : string :=
  string_of_list_ascii (rev (list_ascii_of_string s)).

Definition trim (s : string) : string :=
  reverse (trim_start (reverse (trim_start s))).

Definition lower (c : Ascii.ascii) : Ascii.ascii :=
  if (65 <=? Ascii.nat_of_ascii c)%nat && (Ascii.nat_of_ascii c <=? 90)%nat
  then Ascii.ascii_of_nat (Ascii.nat_of_ascii c + 32)
  else c.

Fixpoint toLowerCase (s : string) : string :=
  match s with
  | String c s' => String (lower c) (toLowerCase s')
  | EmptyString => EmptyString
  end.

(** The elements of an article's content: two paragraphs, one of them
    blank, a heading and a list item. *)
Definition content_elements : list Element :=
  [mkElement "P" "  Intro "; mkElement "H1" "Heading"; mkElement "P" "   ";
   mkElement "LI" "Body"].

Definition page_run : PageRun :=
  PageArticle (Some "A title") (Some "<p>Intro</p>") content_elements
    "https://example.org/".

Definition host_page (r : PageRun) : HostAnswers :=
  mkHostAnswers (Resolved [mkTab (Some 7%Z)]) (Resolved tt)
    (Resolved (Some (page_function trim toLowerCase r))).

(** The second script, over the same numbers. *)
Definition document : Second.Document :=
  Second.mkDocument "A title"
    ["short"; "A paragraph that is long enough."; "";
     "  Another paragraph, long enough too.  "]
    (Some "<main>short</main>") "https://example.org/".

Definition document_short : Second.Document :=
  Second.mkDocument "A title" ["short"; "   "] (Some "<main>short</main>")
    "https://example.org/".

(** The texts of these documents are ASCII, where the bytes that
    [String.length] counts are the UTF-16 code units. *)
Definition second_host_ok : Second.Answers :=
  Second.mkAnswers (Resolved [mkTab (Some 7%Z)])
    (Resolved (Second.getReadableContent trim String.length document)).

Definition second_host_no_tab : Second.Answers :=
  Second.mkAnswers (Resolved []) (Resolved None).

Definition second_fresh : Second.State :=
  Second.mounted 0%N print parse ∅.

End Sample.

(** * Properties *)

Section Facts.

Context {num : Type} `{!EqDecision num}.
Variable one : num.
Variable numToString : num -> string.
Variable parseFloat : string -> num.

Set Default Proof Using "Type".

#[local] Abbreviation State := (@State num).
#[local] Abbreviation Outcome := (@Outcome num).
#[local] Abbreviation Op := (@Op num).
#[local] Abbreviation step := (step numToString).
#[local] Abbreviation run := (run numToString).
#[local] Abbreviation run_op := (run_op numToString).
#[local] Abbreviation reachable := (reachable one numToString parseFloat).
#[local] Abbreviation mounted := (mounted one numToString parseFloat).
#[local] Abbreviation attainable := (attainable one numToString parseFloat).
#[local] Abbreviation happen := (happen numToString).
#[local] Abbreviation happenings := (happenings numToString).

(** ** The invariant of the cursor and of the queue *)

Lemma well_formed_stopReading (st : State) :
  well_formed st -> well_formed (stopReading st).
Proof.
  intros H. unfold stopReading.
  destruct (speechSynthesis st) as [synth|] eqn:E; [| exact H].
  destruct H as (Hc & _). unfold well_formed; simpl.
  split; [done | split]; [done |].
  intros _ synth' [= <-]. done.
Qed.

Lemma well_formed_speakCurrentSegment (st : State) :
  (0 <= currentSpeechIndex st)%Z ->
  (forall synth, speechSynthesis st = Some synth -> pending synth = []) ->
  (isReading st = true -> is_Some (speechSynthesis st)) ->
  well_formed (state_of (speakCurrentSegment st)).
Proof.
  intros Hc Hq He. unfold speakCurrentSegment.
  destruct (negb (isReading st) || _) eqn:Hend; simpl.
  - unfold well_formed; simpl. split; [done | split]; [done | auto].
  - apply orb_false_iff in Hend as [Hr _]. apply negb_false_iff in Hr.
    destruct (He Hr) as [synth Hs].
    destruct (segment_at _ _) as [segment|]; simpl.
    + rewrite Hs. unfold well_formed; simpl. split; [done | split]; [| congruence].
      intros _. eexists; split; [done |]. simpl.
      rewrite (Hq _ Hs). simpl. lia.
    + split; [done | split]; [| congruence].
      intros _. exists synth. split; [done |]. rewrite (Hq _ Hs). simpl. lia.
Qed.

Lemma well_formed_frame (st st' : State) :
  currentSpeechIndex st' = currentSpeechIndex st ->
  isReading st' = isReading st ->
  speechSynthesis st' = speechSynthesis st ->
  well_formed st -> well_formed st'.
Proof.
  unfold well_formed. intros -> -> ->. done.
Qed.

Lemma well_formed_startReading (st : State) :
  well_formed st -> well_formed (state_of (startReading st)).
Proof.
  intros H. unfold startReading.
  destruct (length (contentSegments st) =? 0)%nat; simpl.
  { by apply (well_formed_frame st). }
  destruct (speechSynthesis st) as [synth|] eqn:E; simpl.
  2: { by apply (well_formed_frame st). }
  destruct H as (Hc & _).
  unfold stopReading. rewrite E.
  apply well_formed_speakCurrentSegment.
  - case_match; simpl; lia.
  - case_match; simpl; intros ? [= <-]; done.
  - case_match; simpl; eauto.
Qed.

Lemma well_formed_nextSegment (st : State) :
  well_formed st -> well_formed (state_of (nextSegment st)).
Proof.
  intros H. unfold nextSegment.
  destruct (negb (isReading st)); simpl; [done |].
  apply well_formed_startReading.
  apply well_formed_stopReading in H. destruct H as (Hc & Hr & Hi).
  unfold well_formed; simpl. split; [lia | done].
Qed.

Lemma well_formed_prevSegment (st : State) :
  well_formed st -> well_formed (state_of (prevSegment st)).
Proof.
  intros H. unfold prevSegment.
  destruct (negb (isReading st)); simpl; [done |].
  apply well_formed_startReading.
  apply well_formed_stopReading in H. destruct H as (Hc & Hr & Hi).
  unfold well_formed; simpl. split; [lia | done].
Qed.

(** In a well-formed state the utterance in flight is the only one
    queued, and the player is reading. *)
Lemma in_flight_well_formed (st : State) (u : Utterance) :
  well_formed st -> in_flight st = Some u ->
  isReading st = true
  /\ exists synth, speechSynthesis st = Some synth /\ pending synth = [u].
Proof.
  intros (Hc & Hr & Hi) Hu. unfold in_flight in Hu.
  destruct (speechSynthesis st) as [synth|] eqn:E; [| done].
  destruct (isReading st) eqn:R.
  - split; [done |]. exists synth. split; [done |].
    destruct (Hr eq_refl) as (synth' & [= <-] & Hlen).
    destruct (pending synth) as [|u' [|u'' q]]; simpl in *; [done | | lia].
    by simplify_eq.
  - rewrite (Hi eq_refl synth eq_refl) in Hu. done.
Qed.

Lemma well_formed_signal_end (st : State) :
  well_formed st -> well_formed (state_of (signal_end st)).
Proof.
  intros H. unfold signal_end.
  destruct (in_flight st) as [u|] eqn:Hu; simpl; [| done].
  destruct (in_flight_well_formed st u H Hu) as (R & synth & E & Hq).
  destruct H as (Hc & _).
  unfold utterance_onend, drop_in_flight. rewrite E.
  apply well_formed_speakCurrentSegment; simpl.
  - lia.
  - intros ? [= <-]. simpl. by rewrite Hq.
  - eauto.
Qed.

Lemma well_formed_signal_error (st : State) :
  well_formed st -> well_formed (signal_error st).
Proof.
  intros H. unfold signal_error.
  destruct (in_flight st) as [u|] eqn:Hu; simpl; [| done].
  destruct (in_flight_well_formed st u H Hu) as (R & synth & E & Hq).
  destruct H as (Hc & _).
  unfold utterance_onerror, drop_in_flight. rewrite E.
  unfold well_formed; simpl. split; [done | split]; [done |].
  intros _ ? [= <-]. simpl. by rewrite Hq.
Qed.

Lemma well_formed_togglePause (st : State) :
  well_formed st -> well_formed (togglePause st).
Proof.
  intros H. unfold togglePause.
  destruct (speechSynthesis st) as [synth|] eqn:E; [| done].
  destruct H as (Hc & Hr & Hi). rewrite E in Hr, Hi.
  destruct (paused synth); unfold well_formed; simpl;
    (split; [done | split];
     [ intros R; destruct (Hr R) as (? & [= <-] & ?); eauto
     | intros R ? [= <-]; simpl; eauto ]).
Qed.

(** A completed attempt wrote the title, the content, the segments and
    three stored items, and nothing else. *)
Lemma extract_try_completed (ans : HostAnswers) (st st' : State) :
  extract_try ans st = Completed st' ->
  exists article,
    ans_extract ans = Resolved (Some article)
    /\ truthy (a_error article) = false
    /\ st' =
       setItem key_url (to_item (a_url article))
         (setItem key_title (to_item (a_title article))
           (setItem key_content (to_item (a_content article))
             (set_contentSegments
                (match a_segments article with
                 | Some segments => segments
                 | None => []
                 end)
                (set_pageContent (a_content article)
                  (set_pageTitle (a_title article) st))))).
Proof.
  unfold extract_try. intros H.
  repeat case_match; simplify_eq;
    (eexists; split; [done | split]; [done |]);
    match goal with E : a_segments _ = _ |- _ => by rewrite E end.
Qed.

Lemma well_formed_step (op : Op) (st : State) :
  well_formed st -> well_formed (step op st).
Proof.
  intros H. destruct op; unfold step; simpl.
  - unfold voiceschanged, getVoices, write_speechVoice.
    apply (well_formed_frame st); [| | | done]; repeat case_match; done.
  - by apply (well_formed_frame st).
  - unfold getPageContent_finish.
    destruct (extract_try ans st) as [st'|e] eqn:E.
    + apply extract_try_completed in E as (article & _ & _ & ->).
      by apply (well_formed_frame st).
    + by apply (well_formed_frame st).
  - by apply well_formed_startReading.
  - by apply well_formed_stopReading.
  - by apply well_formed_togglePause.
  - by apply well_formed_nextSegment.
  - by apply well_formed_prevSegment.
  - by apply well_formed_signal_end.
  - by apply well_formed_signal_error.
  - unfold write_speechRate.
    apply (well_formed_frame st); [| | | done]; case_match; done.
  - unfold write_speechPitch.
    apply (well_formed_frame st); [| | | done]; case_match; done.
  - unfold write_speechVoice.
    apply (well_formed_frame st); [| | | done]; case_match; done.
Qed.

Lemma well_formed_run (ops : list Op) (st : State) :
  well_formed st -> well_formed (run ops st).
Proof.
  revert st. induction ops as [|op ops IH]; intros st H; simpl; [done |].
  apply IH. by apply well_formed_step.
Qed.

Lemma write_speechRate_player (v : num) (st : State) :
  currentSpeechIndex (write_speechRate numToString v st) = currentSpeechIndex st
  /\ isReading (write_speechRate numToString v st) = isReading st
  /\ speechSynthesis (write_speechRate numToString v st) = speechSynthesis st.
Proof. unfold write_speechRate. by case_match. Qed.

Lemma write_speechPitch_player (v : num) (st : State) :
  currentSpeechIndex (write_speechPitch numToString v st) = currentSpeechIndex st
  /\ isReading (write_speechPitch numToString v st) = isReading st
  /\ speechSynthesis (write_speechPitch numToString v st) = speechSynthesis st.
Proof. unfold write_speechPitch. by case_match. Qed.

Lemma write_speechVoice_player (v : string) (st : State) :
  currentSpeechIndex (write_speechVoice v st) = currentSpeechIndex st
  /\ isReading (write_speechVoice v st) = isReading st
  /\ speechSynthesis (write_speechVoice v st) = speechSynthesis st.
Proof. unfold write_speechVoice. by case_match. Qed.

Lemma getVoices_player (voices : list Voice) (st : State) :
  currentSpeechIndex (getVoices voices st) = currentSpeechIndex st
  /\ isReading (getVoices voices st) = isReading st
  /\ speechSynthesis (getVoices voices st) = speechSynthesis st.
Proof.
  unfold getVoices. repeat case_match; try done;
    match goal with |- context [write_speechVoice ?v ?s] =>
      by destruct (write_speechVoice_player v s) as (-> & -> & ->)
    end.
Qed.

(** [onMounted] touches neither the cursor nor the reading flag, and
    leaves an idle engine where the window has one. *)
Lemma onMounted_player (win : Window) (st : State) :
  currentSpeechIndex (onMounted numToString parseFloat win st)
    = currentSpeechIndex st
  /\ isReading (onMounted numToString parseFloat win st) = isReading st
  /\ speechSynthesis (onMounted numToString parseFloat win st)
     = (if win_speechSynthesis win then Some synth_idle else speechSynthesis st).
Proof.
  unfold onMounted.
  set (st1 := match getItem key_rate st with Some _ => _ | None => _ end).
  assert (F1 : currentSpeechIndex st1 = currentSpeechIndex st
               /\ isReading st1 = isReading st
               /\ speechSynthesis st1 = speechSynthesis st).
  { subst st1. destruct (getItem key_rate st); [| done].
    apply write_speechRate_player. }
  set (st2 := match getItem key_pitch st1 with Some _ => _ | None => _ end).
  assert (F2 : currentSpeechIndex st2 = currentSpeechIndex st
               /\ isReading st2 = isReading st
               /\ speechSynthesis st2 = speechSynthesis st).
  { destruct F1 as (<- & <- & <-).
    subst st2. destruct (getItem key_pitch st1); [| done].
    apply write_speechPitch_player. }
  set (st3 := match getItem key_voice st2 with Some _ => _ | None => _ end).
  assert (F3 : currentSpeechIndex st3 = currentSpeechIndex st
               /\ isReading st3 = isReading st
               /\ speechSynthesis st3 = speechSynthesis st).
  { destruct F2 as (<- & <- & <-).
    subst st3. destruct (getItem key_voice st2); [| done].
    destruct (truthy _); [| done].
    apply write_speechVoice_player. }
  clearbody st3. destruct F3 as (<- & <- & <-).
  unfold initSpeechSynthesis. destruct (win_speechSynthesis win); [| done].
  match goal with |- context [getVoices ?v ?s] =>
    by destruct (getVoices_player v s) as (-> & -> & ->)
  end.
Qed.

Lemma well_formed_mounted (ls : gmap string string) (win : Window) :
  well_formed (mounted ls win).
Proof.
  unfold mounted, well_formed.
  destruct (onMounted_player win (initial one ls)) as (-> & -> & ->). simpl.
  split; [done | split; [done |]].
  intros _ synth. by destruct (win_speechSynthesis win); intros [= <-].
Qed.

Lemma reachable_well_formed (st : State) :
  reachable st -> well_formed st.
Proof.
  intros (ls & win & ops & ->).
  apply well_formed_run, well_formed_mounted.
Qed.

Lemma reachable_step (op : Op) (st : State) :
  reachable st -> reachable (step op st).
Proof.
  intros (ls & win & ops & ->). exists ls, win, (ops ++ [op])%list.
  unfold run. by rewrite foldl_app.
Qed.

(** ** Reading to the end *)

Lemma segment_at_lookup (i : nat) (l : list Segment) :
  segment_at (Z.of_nat i) l = l !! i.
Proof.
  unfold segment_at. destruct (Z.ltb_spec (Z.of_nat i) 0); [lia |].
  by rewrite Nat2Z.id.
Qed.

(** From a state that is reading segment [i] with [k] segments left
    (segment [i] included), [k] end signals are recorded as the
    utterances of segments [i], [i+1], ... at cursors [i], [i+1], ...,
    and the player ends idle with the cursor at the length of the
    list. *)
Lemma playback_rest (k : nat) :
  forall (st : State) (i : nat) (synth : Synth) (segment : Segment),
    isReading st = true ->
    currentSpeechIndex st = Z.of_nat i ->
    (i + S k)%nat = length (contentSegments st) ->
    speechSynthesis st = Some synth ->
    contentSegments st !! i = Some segment ->
    pending synth = [utterance_of st segment] ->
    forall fuel, (S k <= fuel)%nat ->
    exists final,
      playback fuel st =
        (zip (seqZ (Z.of_nat i) (Z.of_nat (S k)))
             (utterance_of st <$> drop i (contentSegments st)),
         Returned final)
      /\ isReading final = false
      /\ currentSpeechIndex final = Z.of_nat (length (contentSegments st))
      /\ in_flight final = None.
Proof.
  induction k as [|k IH]; intros st i synth segment R C L E G Q fuel F;
    (destruct fuel as [|fuel]; [lia |]);
    rewrite (drop_S _ _ _ G), fmap_cons, seqZ_cons by lia;
    simpl playback; unfold in_flight at 1; rewrite E, Q; simpl head;
    unfold signal_end, in_flight; rewrite E, Q; simpl head;
    unfold utterance_onend, drop_in_flight; rewrite E, Q;
    unfold speakCurrentSegment; simpl; rewrite R, C; simpl.
  - destruct (Z.leb_spec (Z.of_nat (length (contentSegments st)))
                (Z.of_nat i + 1)); [| lia].
    eexists. split; [| split; [| split]].
    + by destruct fuel.
    + done.
    + simpl. lia.
    + done.
  - destruct (Z.leb_spec (Z.of_nat (length (contentSegments st)))
                (Z.of_nat i + 1)); [lia |].
    replace (Z.of_nat i + 1)%Z with (Z.of_nat (S i)) by lia.
    rewrite segment_at_lookup.
    destruct (lookup_lt_is_Some_2 (contentSegments st) (S i)) as [next N];
      [lia |].
    rewrite N. simpl.
    match goal with |- context [playback fuel ?s] =>
      destruct (IH s (S i) (speak (utterance_of st next) (cancel synth)) next)
        with (fuel := fuel) as (final & P & Hfinal);
        [done | done | simpl; lia | done | done | done | lia |]
    end.
    exists final. split; [| done].
    simpl in P. rewrite P.
    replace (Z.pred (Z.of_nat (S (S k)))) with (Z.of_nat (S k)) by lia.
    replace (Z.succ (Z.of_nat i)) with (Z.of_nat (S i)) by lia.
    done.
Qed.

(** C1.  With a non-empty segment list and an engine, [startReading]
    returns with the player reading at the cursor [c0] (the old cursor,
    or 0 if that was at or past the end).  Letting the engine signal the
    end of each utterance in turn then records exactly the utterances of
    the segments [c0], [c0 + 1], ... in list order, each at a cursor one
    above the one before (all of the list when [c0] is 0), and any fuel
    of at least the number of segments left ends in the same state: not
    reading, cursor at the length of the list, nothing in flight. *)
Theorem start_reads_to_the_end (st : State) :
  contentSegments st <> [] ->
  is_Some (speechSynthesis st) ->
  (0 <= currentSpeechIndex st)%Z ->
  let n := length (contentSegments st) in
  let c0 :=
    if (Z.of_nat n <=? currentSpeechIndex st)%Z then 0%Z
    else currentSpeechIndex st in
  exists st1,
    startReading st = Returned st1
    /\ isReading st1 = true
    /\ currentSpeechIndex st1 = c0
    /\ forall fuel, (n - Z.to_nat c0 <= fuel)%nat ->
       exists final,
         playback fuel st1 =
           (zip (seqZ c0 (Z.of_nat n - c0))
                (utterance_of st <$> drop (Z.to_nat c0) (contentSegments st)),
            Returned final)
         /\ isReading final = false
         /\ currentSpeechIndex final = Z.of_nat n
         /\ in_flight final = None.
Proof.
  intros Hne [synth E] Hc n c0.
  assert (Hn : (0 < n)%nat).
  { subst n. destruct (contentSegments st); [done | simpl; lia]. }
  assert (Hc0 : (0 <= c0 < Z.of_nat n)%Z).
  { subst c0. destruct (Z.leb_spec (Z.of_nat n) (currentSpeechIndex st)); lia. }
  destruct (lookup_lt_is_Some_2 (contentSegments st) (Z.to_nat c0))
    as [segment G]; [fold n; lia |].
  assert (Hstart :
    startReading st =
      speakCurrentSegment
        (set_isReading true
          (set_currentSpeechIndex c0 (stopReading st)))).
  { unfold startReading. fold n.
    destruct (Nat.eqb_spec n 0); [lia |]. rewrite E.
    unfold stopReading. rewrite E. simpl. fold n. subst c0.
    by destruct (Z.leb_spec (Z.of_nat n) (currentSpeechIndex st)). }
  assert (Hseg : segment_at c0 (contentSegments st) = Some segment).
  { unfold segment_at. by destruct (Z.ltb_spec c0 0); [lia |]. }
  clearbody c0.
  rewrite Hstart. unfold speakCurrentSegment, stopReading. rewrite E. simpl.
  fold n. destruct (Z.leb_spec (Z.of_nat n) c0); [lia |].
  rewrite Hseg.
  eexists. split; [done |]. split; [done |]. split; [done |].
  intros fuel F.
  destruct (n - Z.to_nat c0)%nat as [|k] eqn:K; [lia |].
  match goal with |- context [playback fuel ?s] =>
    destruct (playback_rest k s (Z.to_nat c0)
                (speak (utterance_of st segment) (cancel synth)) segment)
      with (fuel := fuel) as (final & P & Hfinal);
      [done | simpl; lia | simpl; fold n; lia | done | done | done | lia |]
  end.
  exists final. split; [| done].
  simpl in P. rewrite P.
  rewrite Z2Nat.id by lia.
  replace (Z.of_nat n - c0)%Z with (Z.of_nat (S k)) by lia.
  done.
Qed.

(** ** Skipping past the last segment *)

(** C2 (amended).  [nextSegment] called while the last segment is being
    read moves the cursor past the end, and its call of [startReading]
    takes it back to 0 at once: the call returns with the player still
    reading, the cursor at 0 and the first segment in flight.  The
    wrap-around is part of [nextSegment]; playback does not halt. *)
Theorem next_on_last_segment_wraps (st : State) (synth : Synth) :
  isReading st = true ->
  speechSynthesis st = Some synth ->
  contentSegments st <> [] ->
  currentSpeechIndex st = (Z.of_nat (length (contentSegments st)) - 1)%Z ->
  exists first st',
    head (contentSegments st) = Some first
    /\ nextSegment st = Returned st'
    /\ isReading st' = true
    /\ currentSpeechIndex st' = 0%Z
    /\ in_flight st' = Some (utterance_of st first).
Proof.
  intros R E Hne C.
  destruct (contentSegments st) as [|first rest] eqn:L; [done |].
  exists first. unfold nextSegment. rewrite R. simpl.
  unfold stopReading. rewrite E. unfold startReading. simpl.
  rewrite L, C. simpl length.
  destruct (Z.leb_spec (Z.of_nat (S (length rest)))
              (Z.of_nat (S (length rest)) - 1 + 1)); [| lia].
  unfold speakCurrentSegment. simpl. rewrite L. simpl.
  eexists. split; [done |]. split; [done |]. done.
Qed.

(** ** A failed extraction *)

(** The three kinds of failure, as [extract_try] meets them. *)
Lemma extract_try_no_active_tab (ans : HostAnswers) (tabs : list Tab) (st : State) :
  ans_tabs ans = Resolved tabs ->
  no_active_tab tabs = true ->
  extract_try ans st = Raised (ErrorObj "No active tab found").
Proof. unfold extract_try. by intros -> ->. Qed.

Lemma extract_try_injection_fails
    (ans : HostAnswers) (tabs : list Tab) (e : Thrown) (st : State) :
  ans_tabs ans = Resolved tabs ->
  no_active_tab tabs = false ->
  ans_inject ans = Rejected e ->
  extract_try ans st = Raised e.
Proof. unfold extract_try. by intros -> -> ->. Qed.

Lemma extract_try_reported
    (ans : HostAnswers) (tabs : list Tab) (article : Article) (st : State) :
  ans_tabs ans = Resolved tabs ->
  no_active_tab tabs = false ->
  ans_inject ans = Resolved tt ->
  ans_extract ans = Resolved (Some article) ->
  truthy (a_error article) = true ->
  extract_try ans st = Raised (ErrorObj (to_item (a_error article))).
Proof. unfold extract_try. by intros -> -> -> -> ->. Qed.

(** C3 (amended).  A call of [getPageContent] that fails puts the
    failure's message in the error slot and leaves the title as it was,
    but not the segment list and the page content: both were emptied when
    the call began and stay empty.  Nothing else changes: the call ends
    in the prior state with the message, no segments, the empty content
    and the loading flag down. *)
Theorem failed_extraction_clears_content
    (ans : HostAnswers) (st : State) (e : Thrown) :
  extract_try ans (getPageContent_begin st) = Raised e ->
  getPageContent ans st =
    set_isLoading false
      (set_error (error_text e)
        (set_contentSegments [] (set_pageContent (Some "") st)))
  /\ error (getPageContent ans st) = error_text e
  /\ pageTitle (getPageContent ans st) = pageTitle st
  /\ contentSegments (getPageContent ans st) = []
  /\ pageContent (getPageContent ans st) = Some "".
Proof.
  intros H. unfold getPageContent, getPageContent_finish. rewrite H.
  repeat split.
Qed.

(** ** An utterance error *)

Lemma speakCurrentSegment_error (st : State) :
  error (state_of (speakCurrentSegment st)) = error st.
Proof. unfold speakCurrentSegment. by repeat case_match. Qed.

(** C4 (amended).  When the engine signals an error for the utterance in
    flight while a segment of the list is being read, the player stops
    reading, the error slot gets the message and the cursor stays where
    it is; a call of [startReading] after that resumes at that cursor,
    with the utterance of the same segment in flight: it does not go back
    to segment 0. *)
Theorem utterance_error_then_start_resumes
    (st : State) (u : Utterance) (segment : Segment) :
  isReading st = true ->
  in_flight st = Some u ->
  segment_at (currentSpeechIndex st) (contentSegments st) = Some segment ->
  isReading (signal_error st) = false
  /\ error (signal_error st) = "Error during speech synthesis"
  /\ currentSpeechIndex (signal_error st) = currentSpeechIndex st
  /\ exists st2,
       startReading (signal_error st) = Returned st2
       /\ isReading st2 = true
       /\ currentSpeechIndex st2 = currentSpeechIndex st
       /\ in_flight st2 = Some (utterance_of st segment).
Proof.
  intros R U G. unfold signal_error. rewrite U.
  unfold in_flight in U.
  destruct (speechSynthesis st) as [synth|] eqn:E; [| done].
  unfold utterance_onerror, drop_in_flight. rewrite E. simpl.
  split; [done |]. split; [done |]. split; [done |].
  assert (Hin : (0 <= currentSpeechIndex st
                 < Z.of_nat (length (contentSegments st)))%Z).
  { unfold segment_at in G.
    destruct (Z.ltb_spec (currentSpeechIndex st) 0); [done |].
    apply lookup_lt_Some in G. lia. }
  unfold startReading. simpl.
  destruct (Nat.eqb_spec (length (contentSegments st)) 0); [lia |].
  unfold stopReading. simpl.
  destruct (Z.leb_spec (Z.of_nat (length (contentSegments st)))
              (currentSpeechIndex st)); [lia |].
  unfold speakCurrentSegment. simpl.
  destruct (Z.leb_spec (Z.of_nat (length (contentSegments st)))
              (currentSpeechIndex st)); [lia |].
  rewrite G. eexists. split; [done |]. done.
Qed.

(** ** The error slot *)

(** C5 (amended).  [getPageContent] empties the error slot in its first
    statements, before it asks the host for anything.  [startReading]
    does not: it writes the slot only when one of its two checks fails,
    and otherwise leaves in it whatever it held. *)
Theorem error_slot_at_start (st : State) :
  error (getPageContent_begin st) = ""
  /\ error (state_of (startReading st)) =
     (if (length (contentSegments st) =? 0)%nat then "No content to read"
      else match speechSynthesis st with
           | None => "Speech synthesis not available"
           | Some _ => error st
           end).
Proof.
  split; [done |]. unfold startReading.
  destruct (length (contentSegments st) =? 0)%nat; [done |].
  destruct (speechSynthesis st) as [synth|] eqn:E; [| done].
  rewrite speakCurrentSegment_error. unfold stopReading. rewrite E.
  by case_match.
Qed.

(** ** The cursor *)

Lemma speakCurrentSegment_cursor (st : State) :
  currentSpeechIndex (state_of (speakCurrentSegment st)) = currentSpeechIndex st.
Proof. unfold speakCurrentSegment. by repeat case_match. Qed.

Lemma stopReading_cursor (st : State) :
  currentSpeechIndex (stopReading st) = currentSpeechIndex st.
Proof. unfold stopReading. by case_match. Qed.

Lemma startReading_cursor (st : State) :
  (0 <= currentSpeechIndex st)%Z ->
  (0 <= currentSpeechIndex (state_of (startReading st)))%Z.
Proof.
  intros H. unfold startReading. repeat case_match; simpl; try done;
    rewrite speakCurrentSegment_cursor; simpl; try lia;
    by rewrite stopReading_cursor.
Qed.

Lemma step_cursor (op : Op) (st : State) :
  (0 <= currentSpeechIndex st)%Z -> (0 <= currentSpeechIndex (step op st))%Z.
Proof.
  intros H. destruct op; unfold step; simpl.
  - unfold voiceschanged, getVoices, write_speechVoice.
    by repeat case_match.
  - done.
  - unfold getPageContent_finish.
    destruct (extract_try ans st) as [st'|e] eqn:E; [| done].
    by apply extract_try_completed in E as (article & _ & _ & ->).
  - by apply startReading_cursor.
  - by rewrite stopReading_cursor.
  - unfold togglePause. by repeat case_match.
  - unfold nextSegment. case_match; [done |].
    apply startReading_cursor. simpl. rewrite stopReading_cursor. lia.
  - unfold prevSegment. case_match; [done |].
    apply startReading_cursor. simpl. lia.
  - unfold signal_end, utterance_onend. case_match; [| done].
    rewrite speakCurrentSegment_cursor. simpl.
    unfold drop_in_flight. case_match; simpl; lia.
  - unfold signal_error, utterance_onerror, drop_in_flight.
    by repeat case_match.
  - unfold write_speechRate. by case_match.
  - unfold write_speechPitch. by case_match.
  - unfold write_speechVoice. by case_match.
Qed.

Lemma segment_at_in_range (i : Z) (l : list Segment) :
  (0 <= i < Z.of_nat (length l))%Z -> is_Some (segment_at i l).
Proof.
  intros H. unfold segment_at. destruct (Z.ltb_spec i 0); [lia |].
  apply lookup_lt_is_Some_2. lia.
Qed.

(** [speakCurrentSegment] throws only at a negative cursor or without an
    engine. *)
Lemma speakCurrentSegment_returns (st : State) :
  (0 <= currentSpeechIndex st)%Z ->
  is_Some (speechSynthesis st) ->
  returns (speakCurrentSegment st) = true.
Proof.
  intros H [synth E]. unfold speakCurrentSegment.
  destruct (negb (isReading st)); [done |]. simpl.
  destruct (Z.leb_spec (Z.of_nat (length (contentSegments st)))
              (currentSpeechIndex st)); [done |].
  destruct (segment_at_in_range (currentSpeechIndex st) (contentSegments st))
    as [segment ->]; [lia |].
  simpl. by rewrite E.
Qed.

(** [startReading] throws only at a negative cursor. *)
Lemma startReading_returns (st : State) :
  (0 <= currentSpeechIndex st)%Z -> returns (startReading st) = true.
Proof.
  intros H. unfold startReading.
  destruct (length (contentSegments st) =? 0)%nat; [done |].
  destruct (speechSynthesis st) as [synth|] eqn:E; [| done].
  unfold stopReading. rewrite E.
  apply speakCurrentSegment_returns.
  - case_match; simpl; lia.
  - case_match; simpl; eauto.
Qed.

(** C6 (amended).  Over every sequence of operations the cursor never
    becomes negative.  [prevSegment] never throws, in any state; called
    while the player is not reading it does nothing, so the cursor keeps
    its value; called while a segment of the list is being read it sets
    the cursor to the cursor minus 1, clamped at 0. *)
Theorem cursor_never_negative (ops : list Op) (st : State) :
  ((0 <= currentSpeechIndex st)%Z ->
   (0 <= currentSpeechIndex (run ops st))%Z)
  /\ returns (prevSegment st) = true
  /\ (isReading st = false -> prevSegment st = Returned st)
  /\ (isReading st = true ->
      (currentSpeechIndex st < Z.of_nat (length (contentSegments st)))%Z ->
      currentSpeechIndex (state_of (prevSegment st)) =
        Z.max 0 (currentSpeechIndex st - 1)).
Proof.
  split; [| split; [| split]].
  - revert st. induction ops as [|op ops IH]; intros st H; simpl; [done |].
    apply IH. by apply step_cursor.
  - unfold prevSegment. case_match; [done |].
    apply startReading_returns. simpl. lia.
  - intros R. unfold prevSegment. by rewrite R.
  - intros R Hlt. unfold prevSegment. rewrite R. simpl.
    unfold startReading, stopReading.
    destruct (speechSynthesis st) as [synth|] eqn:E; simpl; rewrite ?E;
      (destruct (Nat.eqb_spec (length (contentSegments st)) 0); [done |]);
      [| done].
    rewrite speakCurrentSegment_cursor. simpl.
    destruct (Z.leb_spec (Z.of_nat (length (contentSegments st)))
                (Z.max 0 (currentSpeechIndex st - 1))); [lia | done].
Qed.

(** ** The checks of [startReading] *)

(** C8.  With an empty segment list [startReading] only writes "No
    content to read" to the error slot; with segments but no engine it
    only writes "Speech synthesis not available".  In both cases the
    reading flag keeps its value (it remains false), nothing is handed to
    the engine and no utterance is built.  In no state the popup can be
    in does [startReading] throw. *)
Theorem start_reports_failed_checks (st : State) :
  (contentSegments st = [] ->
   startReading st = Returned (set_error "No content to read" st))
  /\ (contentSegments st <> [] -> speechSynthesis st = None ->
      startReading st = Returned (set_error "Speech synthesis not available" st))
  /\ (contentSegments st = [] \/ speechSynthesis st = None ->
      isReading (state_of (startReading st)) = isReading st
      /\ speechSynthesis (state_of (startReading st)) = speechSynthesis st
      /\ speechUtterance (state_of (startReading st)) = speechUtterance st
      /\ error (state_of (startReading st)) <> "")
  /\ (reachable st -> returns (startReading st) = true).
Proof.
  split; [| split; [| split]].
  - intros E. unfold startReading. by rewrite E.
  - intros Hne E. unfold startReading. rewrite E.
    by destruct (contentSegments st).
  - intros H. unfold startReading.
    destruct (length (contentSegments st) =? 0)%nat eqn:L; [done |].
    destruct H as [H | H].
    + by rewrite H in L.
    + by rewrite H.
  - intros H. apply reachable_well_formed in H as (Hc & _).
    by apply startReading_returns.
Qed.

(** ** When the player is reading *)

Lemma speakCurrentSegment_reading (st : State) :
  contentSegments (state_of (speakCurrentSegment st)) = contentSegments st
  /\ (is_Some (speechSynthesis st) ->
      is_Some (speechSynthesis (state_of (speakCurrentSegment st))))
  /\ (isReading (state_of (speakCurrentSegment st)) = true ->
      isReading st = true).
Proof.
  clear one numToString parseFloat. unfold speakCurrentSegment.
  destruct (isReading st); repeat case_match; simpl; naive_solver.
Qed.

Lemma stopReading_reading (st : State) :
  contentSegments (stopReading st) = contentSegments st
  /\ (is_Some (speechSynthesis st) -> is_Some (speechSynthesis (stopReading st)))
  /\ (isReading (stopReading st) = true -> isReading st = true).
Proof.
  clear one numToString parseFloat.
  unfold stopReading. case_match; simpl; naive_solver.
Qed.

(** [startReading] leaves the reading flag up only where it was up
    already or where both of its checks passed. *)
Lemma startReading_reading (st : State) :
  contentSegments (state_of (startReading st)) = contentSegments st
  /\ (is_Some (speechSynthesis st) ->
      is_Some (speechSynthesis (state_of (startReading st))))
  /\ (isReading (state_of (startReading st)) = true ->
      isReading st = true
      \/ (contentSegments st <> [] /\ is_Some (speechSynthesis st))).
Proof.
  unfold startReading.
  destruct (contentSegments st) as [|first rest] eqn:L; simpl.
  { rewrite L. eauto. }
  destruct (speechSynthesis st) as [synth|] eqn:E; simpl.
  2: { rewrite L, E. eauto. }
  unfold stopReading. rewrite E. simpl.
  destruct (_ <=? _)%Z;
    match goal with |- context [speakCurrentSegment ?s] =>
      destruct (speakCurrentSegment_reading s) as (Hs & He & _)
    end;
    (split; [by rewrite Hs | split; [| by eauto]]);
    intros _; by apply He.
Qed.

Lemma step_reading (op : Op) (st : State) :
  player_op op = true ->
  contentSegments (step op st) = contentSegments st
  /\ (is_Some (speechSynthesis st) -> is_Some (speechSynthesis (step op st)))
  /\ (isReading (step op st) = true ->
      isReading st = true
      \/ (contentSegments st <> [] /\ is_Some (speechSynthesis st))).
Proof.
  clear one parseFloat.
  destruct op; try done; intros _; unfold step; simpl.
  - apply startReading_reading.
  - destruct (stopReading_reading st) as (? & ? & ?). naive_solver.
  - unfold togglePause. repeat case_match; simpl; naive_solver.
  - unfold nextSegment. destruct (isReading st) eqn:R; simpl; [| naive_solver].
    match goal with |- context [startReading ?s] =>
      destruct (startReading_reading s) as (-> & He & _)
    end.
    destruct (stopReading_reading st) as (? & ? & ?). simpl. naive_solver.
  - unfold prevSegment. destruct (isReading st) eqn:R; simpl; [| naive_solver].
    match goal with |- context [startReading ?s] =>
      destruct (startReading_reading s) as (-> & He & _)
    end.
    destruct (stopReading_reading st) as (? & ? & ?). simpl. naive_solver.
  - unfold signal_end. case_match; simpl; [| naive_solver].
    unfold utterance_onend.
    match goal with |- context [speakCurrentSegment ?s] =>
      destruct (speakCurrentSegment_reading s) as (-> & He & Hr)
    end.
    unfold drop_in_flight in *. case_match; simpl in *; naive_solver.
  - unfold signal_error. case_match; simpl; [| naive_solver].
    unfold utterance_onerror, drop_in_flight. case_match; simpl; naive_solver.
Qed.

(** Only [Start] can raise the reading flag. *)
Lemma step_keeps_idle (op : Op) (st : State) :
  op <> Start -> isReading st = false -> isReading (step op st) = false.
Proof.
  intros Hop R. destruct op; try done; unfold step; simpl.
  - unfold voiceschanged, getVoices, write_speechVoice.
    by repeat case_match.
  - unfold getPageContent_finish.
    destruct (extract_try ans st) as [st'|e] eqn:E; [| done].
    by apply extract_try_completed in E as (article & _ & _ & ->).
  - unfold stopReading. by case_match.
  - unfold togglePause. by repeat case_match.
  - unfold nextSegment. by rewrite R.
  - unfold prevSegment. by rewrite R.
  - unfold signal_end, utterance_onend. case_match; [| done].
    apply not_true_is_false. intros Hup.
    apply speakCurrentSegment_reading in Hup. simpl in Hup.
    unfold drop_in_flight in Hup. destruct (speechSynthesis st); simpl in Hup;
      congruence.
  - unfold signal_error, utterance_onerror. by case_match.
  - unfold write_speechRate. by case_match.
  - unfold write_speechPitch. by case_match.
  - unfold write_speechVoice. by case_match.
Qed.

(** C10.  Over every sequence of the player's operations, from a state
    in which reading implies a non-empty segment list and an engine, the
    same holds at the end.  The reading flag goes from false to true only
    in [startReading], and there only with a non-empty list and an
    engine; every other operation leaves a lowered flag down. *)
Theorem reading_needs_segments_and_engine (ops : list Op) (st : State) :
  (Forall (fun op => player_op op = true) ops ->
   (isReading st = true ->
    contentSegments st <> [] /\ is_Some (speechSynthesis st)) ->
   isReading (run ops st) = true ->
   contentSegments (run ops st) <> [] /\ is_Some (speechSynthesis (run ops st)))
  /\ (isReading st = false ->
      isReading (step Start st) = true ->
      contentSegments st <> [] /\ is_Some (speechSynthesis st))
  /\ (forall op, op <> Start ->
      isReading st = false -> isReading (step op st) = false).
Proof.
  split; [| split].
  - revert st. induction ops as [|op ops IH]; intros st Hops Hst; simpl.
    { done. }
    apply Forall_cons in Hops as [Hop Hops].
    apply IH; [done |].
    destruct (step_reading op st Hop) as (Hsegs & He & Hr).
    intros R. rewrite Hsegs.
    destruct (Hr R) as [R' | [? ?]]; [destruct (Hst R') |]; eauto.
  - intros R H.
    destruct (step_reading Start st eq_refl) as (_ & _ & Hr).
    destruct (Hr H) as [R' | ?]; [congruence | done].
  - intros op. apply step_keeps_idle.
Qed.

(** ** The settings and the store *)

Lemma settings_saved_frame (st st' : State) :
  localStorage st' = localStorage st ->
  speechRate st' = speechRate st ->
  speechPitch st' = speechPitch st ->
  speechVoice st' = speechVoice st ->
  settings_saved one parseFloat st -> settings_saved one parseFloat st'.
Proof.
  unfold settings_saved, rate_saved, pitch_saved, voice_saved, getItem.
  intros -> -> -> ->. done.
Qed.

Lemma speakCurrentSegment_settings (st : State) :
  localStorage (state_of (speakCurrentSegment st)) = localStorage st
  /\ speechRate (state_of (speakCurrentSegment st)) = speechRate st
  /\ speechPitch (state_of (speakCurrentSegment st)) = speechPitch st
  /\ speechVoice (state_of (speakCurrentSegment st)) = speechVoice st.
Proof. unfold speakCurrentSegment. by repeat case_match. Qed.

Lemma stopReading_settings (st : State) :
  localStorage (stopReading st) = localStorage st
  /\ speechRate (stopReading st) = speechRate st
  /\ speechPitch (stopReading st) = speechPitch st
  /\ speechVoice (stopReading st) = speechVoice st.
Proof. unfold stopReading. by case_match. Qed.

Lemma startReading_settings (st : State) :
  localStorage (state_of (startReading st)) = localStorage st
  /\ speechRate (state_of (startReading st)) = speechRate st
  /\ speechPitch (state_of (startReading st)) = speechPitch st
  /\ speechVoice (state_of (startReading st)) = speechVoice st.
Proof.
  unfold startReading.
  destruct (_ =? _)%nat; [done |].
  destruct (speechSynthesis st) as [synth|] eqn:E; [| done].
  unfold stopReading. rewrite E. simpl.
  destruct (_ <=? _)%Z;
    match goal with |- context [speakCurrentSegment ?s] =>
      destruct (speakCurrentSegment_settings s) as (-> & -> & -> & ->)
    end; done.
Qed.

Lemma player_step_settings (op : Op) (st : State) :
  player_op op = true ->
  localStorage (step op st) = localStorage st
  /\ speechRate (step op st) = speechRate st
  /\ speechPitch (step op st) = speechPitch st
  /\ speechVoice (step op st) = speechVoice st.
Proof.
  destruct op; try done; intros _; unfold step; simpl.
  - apply startReading_settings.
  - apply stopReading_settings.
  - unfold togglePause. by repeat case_match.
  - unfold nextSegment. case_match; [done |].
    match goal with |- context [startReading ?s] =>
      destruct (startReading_settings s) as (-> & -> & -> & ->)
    end. simpl. apply stopReading_settings.
  - unfold prevSegment. case_match; [done |].
    match goal with |- context [startReading ?s] =>
      destruct (startReading_settings s) as (-> & -> & -> & ->)
    end. simpl. apply stopReading_settings.
  - unfold signal_end, utterance_onend. case_match; [| done].
    match goal with |- context [speakCurrentSegment ?s] =>
      destruct (speakCurrentSegment_settings s) as (-> & -> & -> & ->)
    end. simpl. unfold drop_in_flight. by case_match.
  - unfold signal_error, utterance_onerror, drop_in_flight.
    by repeat case_match.
Qed.

Section RoundTrip.

(** What the platform's number functions are taken to do: a printed
    number reads back as itself. *)
Hypothesis parse_print : forall x, parseFloat (numToString x) = x.

Set Default Proof Using "Type parse_print".

Ltac unfold_saved :=
  unfold settings_saved, rate_saved, pitch_saved, voice_saved, getItem in *.

Lemma write_speechRate_saved (v : num) (st : State) :
  settings_saved one parseFloat st ->
  settings_saved one parseFloat (write_speechRate numToString v st)
  /\ speechRate (write_speechRate numToString v st) = v.
Proof.
  intros (Hr & Hp & Hv). unfold write_speechRate.
  destruct (decide (v = speechRate st)) as [-> | Hne]; [done |].
  unfold_saved. simpl.
  rewrite lookup_insert_eq, !lookup_insert_ne by done. by rewrite parse_print.
Qed.

Lemma write_speechPitch_saved (v : num) (st : State) :
  settings_saved one parseFloat st ->
  settings_saved one parseFloat (write_speechPitch numToString v st)
  /\ speechPitch (write_speechPitch numToString v st) = v.
Proof.
  intros (Hr & Hp & Hv). unfold write_speechPitch.
  destruct (decide (v = speechPitch st)) as [-> | Hne]; [done |].
  unfold_saved. simpl.
  rewrite lookup_insert_eq, !lookup_insert_ne by done. by rewrite parse_print.
Qed.

Lemma write_speechVoice_saved (v : string) (st : State) :
  settings_saved one parseFloat st ->
  settings_saved one parseFloat (write_speechVoice v st)
  /\ speechVoice (write_speechVoice v st) = v.
Proof.
  intros (Hr & Hp & Hv). unfold write_speechVoice.
  destruct (decide (v = speechVoice st)) as [-> | Hne]; [done |].
  unfold_saved. simpl.
  by rewrite lookup_insert_eq, !lookup_insert_ne by done.
Qed.

Lemma getVoices_saved (voices : list Voice) (st : State) :
  settings_saved one parseFloat st ->
  settings_saved one parseFloat (getVoices voices st).
Proof.
  intros H. unfold getVoices.
  repeat case_match; try done;
    try (apply write_speechVoice_saved);
    by apply (settings_saved_frame st).
Qed.

Lemma step_saved (op : Op) (st : State) :
  settings_saved one parseFloat st -> settings_saved one parseFloat (step op st).
Proof.
  intros H.
  destruct (player_op op) eqn:P.
  { destruct (player_step_settings op st P) as (? & ? & ? & ?).
    by apply (settings_saved_frame st). }
  destruct op; try done; unfold step; simpl.
  - unfold voiceschanged. case_match; [| done]. by apply getVoices_saved.
  - unfold getPageContent_finish.
    destruct (extract_try ans st) as [st'|e] eqn:E.
    + apply extract_try_completed in E as (article & _ & _ & ->).
      destruct H as (Hr & Hp & Hv).
      unfold_saved. simpl.
      by rewrite !lookup_insert_ne by done.
    + by apply (settings_saved_frame st).
  - by apply write_speechRate_saved.
  - by apply write_speechPitch_saved.
  - by apply write_speechVoice_saved.
Qed.

Lemma run_saved (ops : list Op) (st : State) :
  settings_saved one parseFloat st -> settings_saved one parseFloat (run ops st).
Proof.
  revert st. induction ops as [|op ops IH]; intros st H; simpl; [done |].
  apply IH. by apply step_saved.
Qed.

(** The three loads of [onMounted], each over a setting that still has
    its initial value. *)
Lemma load_rate_saved (st : State) :
  speechRate st = one ->
  rate_saved one parseFloat
    match getItem key_rate st with
    | Some savedRate => write_speechRate numToString (parseFloat savedRate) st
    | None => st
    end.
Proof.
  intros H. unfold rate_saved, write_speechRate, getItem.
  destruct (localStorage st !! key_rate) as [s|] eqn:E.
  - destruct (decide (parseFloat s = speechRate st)); simpl.
    + by rewrite E.
    + by rewrite lookup_insert_eq, parse_print.
  - by rewrite E.
Qed.

Lemma load_pitch_saved (st : State) :
  speechPitch st = one ->
  pitch_saved one parseFloat
    match getItem key_pitch st with
    | Some savedPitch => write_speechPitch numToString (parseFloat savedPitch) st
    | None => st
    end.
Proof.
  intros H. unfold pitch_saved, write_speechPitch, getItem.
  destruct (localStorage st !! key_pitch) as [s|] eqn:E.
  - destruct (decide (parseFloat s = speechPitch st)); simpl.
    + by rewrite E.
    + by rewrite lookup_insert_eq, parse_print.
  - by rewrite E.
Qed.

Lemma load_voice_saved (st : State) :
  speechVoice st = "" ->
  voice_saved
    match getItem key_voice st with
    | Some savedVoice =>
        if truthy (Some savedVoice) then write_speechVoice savedVoice st else st
    | None => st
    end.
Proof.
  intros H. unfold voice_saved, write_speechVoice, getItem.
  destruct (localStorage st !! key_voice) as [s|] eqn:E.
  - simpl. destruct (String.eqb_spec s ""); simpl.
    + rewrite E. congruence.
    + destruct (decide (s = speechVoice st)); simpl.
      * by rewrite E.
      * by rewrite lookup_insert_eq.
  - by rewrite E.
Qed.

Lemma write_speechRate_frame (v : num) (st : State) :
  speechPitch (write_speechRate numToString v st) = speechPitch st
  /\ speechVoice (write_speechRate numToString v st) = speechVoice st
  /\ forall k, k <> key_rate ->
       getItem k (write_speechRate numToString v st) = getItem k st.
Proof.
  unfold write_speechRate, getItem. case_match; simpl; [done |].
  split; [done | split; [done |]]. intros k Hk. by rewrite lookup_insert_ne.
Qed.

Lemma write_speechPitch_frame (v : num) (st : State) :
  speechRate (write_speechPitch numToString v st) = speechRate st
  /\ speechVoice (write_speechPitch numToString v st) = speechVoice st
  /\ forall k, k <> key_pitch ->
       getItem k (write_speechPitch numToString v st) = getItem k st.
Proof.
  unfold write_speechPitch, getItem. case_match; simpl; [done |].
  split; [done | split; [done |]]. intros k Hk. by rewrite lookup_insert_ne.
Qed.

Lemma write_speechVoice_frame (v : string) (st : State) :
  speechRate (write_speechVoice v st) = speechRate st
  /\ speechPitch (write_speechVoice v st) = speechPitch st
  /\ forall k, k <> key_voice ->
       getItem k (write_speechVoice v st) = getItem k st.
Proof.
  unfold write_speechVoice, getItem. case_match; simpl; [done |].
  split; [done | split; [done |]]. intros k Hk. by rewrite lookup_insert_ne.
Qed.

Lemma mounted_saved (ls : gmap string string) (win : Window) :
  settings_saved one parseFloat (mounted ls win).
Proof.
  unfold mounted, onMounted.
  set (st0 := initial one ls).
  pose proof (load_rate_saved st0 eq_refl) as H1.
  set (st1 := match getItem key_rate st0 with Some _ => _ | None => _ end) in *.
  assert (P1 : speechPitch st1 = one /\ speechVoice st1 = "").
  { subst st1. destruct (getItem key_rate st0); [| done].
    by destruct (write_speechRate_frame (parseFloat s) st0) as (-> & -> & _). }
  destruct P1 as [P1 V1].
  pose proof (load_pitch_saved st1 P1) as H2.
  set (st2 := match getItem key_pitch st1 with Some _ => _ | None => _ end) in *.
  assert (P2 : speechVoice st2 = "" /\ rate_saved one parseFloat st2).
  { subst st2. destruct (getItem key_pitch st1); [| done].
    destruct (write_speechPitch_frame (parseFloat s) st1) as (Er & Ev & Ek).
    split; [congruence |].
    unfold rate_saved in *. by rewrite Ek, Er. }
  destruct P2 as [V2 R2].
  pose proof (load_voice_saved st2 V2) as H3.
  set (st3 := match getItem key_voice st2 with Some _ => _ | None => _ end) in *.
  assert (P3 : rate_saved one parseFloat st3 /\ pitch_saved one parseFloat st3).
  { subst st3. destruct (getItem key_voice st2); [| done].
    destruct (truthy (Some s)); [| done].
    destruct (write_speechVoice_frame s st2) as (Er & Ep & Ek).
    unfold rate_saved, pitch_saved in *. by rewrite !Ek, Er, Ep. }
  assert (S3 : settings_saved one parseFloat st3) by (by destruct P3).
  unfold initSpeechSynthesis. case_match.
  - apply getVoices_saved. by apply (settings_saved_frame st3).
  - by apply (settings_saved_frame st3).
Qed.

Lemma reachable_saved (st : State) :
  reachable st -> settings_saved one parseFloat st.
Proof.
  intros (ls & win & ops & ->). apply run_saved, mounted_saved.
Qed.

Lemma getVoices_frame (voices : list Voice) (st : State) :
  speechRate (getVoices voices st) = speechRate st
  /\ speechPitch (getVoices voices st) = speechPitch st
  /\ (speechVoice st <> "" -> speechVoice (getVoices voices st) = speechVoice st).
Proof.
  unfold getVoices.
  destruct (negb (length voices =? 0)%nat); [| done]. simpl.
  destruct (String.eqb_spec (speechVoice st) ""); simpl; [| done].
  repeat case_match; try done;
    match goal with |- context [write_speechVoice ?v ?s] =>
      by destruct (write_speechVoice_frame v s) as (-> & -> & _)
    end.
Qed.

(** A popup mounted over the items a state has stored starts with that
    state's rate and pitch, and with its voice if it has one. *)
Lemma mounted_reloads (st : State) (win : Window) :
  settings_saved one parseFloat st ->
  speechRate (mounted (localStorage st) win) = speechRate st
  /\ speechPitch (mounted (localStorage st) win) = speechPitch st
  /\ (speechVoice st <> "" ->
      speechVoice (mounted (localStorage st) win) = speechVoice st).
Proof.
  intros (Hr & Hp & Hv). unfold mounted, onMounted.
  set (st0 := initial one (localStorage st)).
  set (st1 := match getItem key_rate st0 with Some _ => _ | None => _ end).
  assert (F1 : speechRate st1 = speechRate st /\ speechPitch st1 = one
               /\ speechVoice st1 = ""
               /\ forall k, k <> key_rate -> getItem k st1 = localStorage st !! k).
  { subst st1. unfold rate_saved, getItem in Hr.
    change (getItem key_rate st0) with (localStorage st !! key_rate).
    destruct (localStorage st !! key_rate) as [s|] eqn:E; [| done].
    destruct (write_speechRate_frame (parseFloat s) st0) as (-> & -> & Ek).
    split; [| split; [done | split; [done | by intros k Hk; rewrite Ek]]].
    unfold write_speechRate. case_match; simpl; [| done].
    rewrite <- Hr. by symmetry. }
  destruct F1 as (R1 & P1 & V1 & K1).
  set (st2 := match getItem key_pitch st1 with Some _ => _ | None => _ end).
  assert (F2 : speechRate st2 = speechRate st
               /\ speechPitch st2 = speechPitch st
               /\ speechVoice st2 = ""
               /\ getItem key_voice st2 = localStorage st !! key_voice).
  { subst st2. unfold pitch_saved, getItem in Hp. rewrite (K1 key_pitch) by done.
    destruct (localStorage st !! key_pitch) as [s|] eqn:E.
    - destruct (write_speechPitch_frame (parseFloat s) st1) as (-> & -> & Ek).
      rewrite Ek, K1 by done.
      split; [done | split; [| done]].
      unfold write_speechPitch. case_match; simpl; congruence.
    - rewrite K1 by done. split; [done | split; [congruence | done]]. }
  destruct F2 as (R2 & P2 & V2 & K2).
  set (st3 := match getItem key_voice st2 with Some _ => _ | None => _ end).
  assert (F3 : speechRate st3 = speechRate st
               /\ speechPitch st3 = speechPitch st
               /\ (speechVoice st <> "" -> speechVoice st3 = speechVoice st)).
  { subst st3. unfold voice_saved, getItem in Hv. rewrite K2.
    destruct (localStorage st !! key_voice) as [s|] eqn:E; [| done].
    subst s. simpl.
    destruct (String.eqb_spec (speechVoice st) ""); simpl; [done |].
    destruct (write_speechVoice_frame (speechVoice st) st2) as (-> & -> & _).
    split; [done | split; [done |]]. intros _.
    unfold write_speechVoice. by case_match. }
  destruct F3 as (R3 & P3 & V3).
  unfold initSpeechSynthesis. case_match; [| done].
  match goal with |- context [getVoices ?v ?s] =>
    destruct (getVoices_frame v s) as (-> & -> & Hg)
  end.
  split; [done | split; [done |]].
  intros Hne. simpl in Hg. rewrite Hg; [by apply V3 |].
  by rewrite (V3 Hne).
Qed.

(** C9.  A write that changes the rate, the pitch or the voice puts the
    new value (printed, for the two numbers) under the setting's key in
    the store with the write itself.  And after any write to a setting,
    a popup mounted over the store as it then is starts with the written
    rate, the written pitch and (when it is not the empty name) the
    written voice.  The number functions of the platform are taken to
    read a printed number back as itself. *)
Theorem settings_written_through_and_reloaded (st : State) :
  reachable st ->
  (forall v, v <> speechRate st ->
     getItem key_rate (write_speechRate numToString v st) = Some (numToString v))
  /\ (forall v, v <> speechPitch st ->
     getItem key_pitch (write_speechPitch numToString v st) = Some (numToString v))
  /\ (forall v, v <> speechVoice st ->
     getItem key_voice (write_speechVoice v st) = Some v)
  /\ (forall v win,
     speechRate (mounted (localStorage (write_speechRate numToString v st)) win) = v)
  /\ (forall v win,
     speechPitch (mounted (localStorage (write_speechPitch numToString v st)) win) = v)
  /\ (forall v win, v <> "" ->
     speechVoice (mounted (localStorage (write_speechVoice v st)) win) = v).
Proof.
  intros Hst. apply reachable_saved in Hst.
  split; [| split; [| split; [| split; [| split]]]].
  - intros v Hv. unfold write_speechRate, getItem.
    destruct (decide (v = speechRate st)); [done |].
    simpl. by rewrite lookup_insert_eq.
  - intros v Hv. unfold write_speechPitch, getItem.
    destruct (decide (v = speechPitch st)); [done |].
    simpl. by rewrite lookup_insert_eq.
  - intros v Hv. unfold write_speechVoice, getItem.
    destruct (decide (v = speechVoice st)); [done |].
    simpl. by rewrite lookup_insert_eq.
  - intros v win.
    destruct (write_speechRate_saved v st Hst) as (Hs & Hv).
    destruct (mounted_reloads _ win Hs) as (-> & _). done.
  - intros v win.
    destruct (write_speechPitch_saved v st Hst) as (Hs & Hv).
    destruct (mounted_reloads _ win Hs) as (_ & -> & _). done.
  - intros v win Hne.
    destruct (write_speechVoice_saved v st Hst) as (Hs & Hv).
    destruct (mounted_reloads _ win Hs) as (_ & _ & Hl).
    rewrite Hl; [done | by rewrite Hv].
Qed.

End RoundTrip.

Set Default Proof Using "Type".

(** * Further properties of the popup *)

(** ** No handler throws *)

(** X1.  In every state the popup can be in, every operation returns:
    no click, no signal of the engine and no answer of the host makes a
    handler throw. *)
Theorem no_operation_throws (op : Op) (st : State) :
  reachable st -> returns (run_op op st) = true.
Proof.
  intros Hst. apply reachable_well_formed in Hst.
  destruct op; simpl; try done.
  - apply startReading_returns. by destruct Hst.
  - unfold nextSegment. case_match; [done |].
    apply startReading_returns. simpl. rewrite stopReading_cursor.
    destruct Hst as (? & _). lia.
  - unfold prevSegment. case_match; [done |].
    apply startReading_returns. simpl. lia.
  - unfold signal_end. destruct (in_flight st) as [u|] eqn:U; [| done].
    destruct (in_flight_well_formed st u Hst U) as (_ & synth & E & _).
    unfold utterance_onend, drop_in_flight. rewrite E.
    apply speakCurrentSegment_returns; simpl; [| by eauto].
    destruct Hst as (? & _). lia.
Qed.

(** ** Pausing *)

(** X3.  [togglePause] only flips the engine's paused flag: the cursor,
    the reading flag, the queue and the error slot stay, and toggling
    twice gives back the very state. *)
Theorem togglePause_twice (st : State) :
  togglePause (togglePause st) = st
  /\ currentSpeechIndex (togglePause st) = currentSpeechIndex st
  /\ isReading (togglePause st) = isReading st
  /\ in_flight (togglePause st) = in_flight st
  /\ error (togglePause st) = error st
  /\ (forall synth, speechSynthesis st = Some synth ->
        exists synth', speechSynthesis (togglePause st) = Some synth'
                       /\ pending synth' = pending synth
                       /\ paused synth' = negb (paused synth)).
Proof.
  unfold togglePause, in_flight.
  destruct st as [? ? ? ? ? ? ? ? ? ? ? [[q [|]]|] ? ?]; simpl;
    repeat split; try done; intros synth [= <-]; eauto.
Qed.

(** ** The voice of an utterance *)

(** X4.  The voice put on an utterance, when there is one, is an
    available voice whose name is the selected name.  When no available
    voice has that name (or no name is selected) the utterance gets no
    voice, and that is no error: it is built all the same. *)
Theorem selected_voice_or_none (st : State) (segment : Segment) :
  (forall voice, utt_voice (utterance_of st segment) = Some voice ->
     voice_name voice = speechVoice st
     /\ In voice (availableVoices st)
     /\ speechVoice st <> "")
  /\ ((forall voice, In voice (availableVoices st) ->
        voice_name voice <> speechVoice st) ->
      utterance_of st segment =
        mkUtterance (text segment) (speechRate st) (speechPitch st) None).
Proof.
  unfold utterance_of, selectedVoice. simpl. split.
  - intros voice H.
    destruct (String.eqb_spec (speechVoice st) ""); simpl in H; [done |].
    apply find_some in H as [Hin Hname].
    apply String.eqb_eq in Hname. done.
  - intros Hnone. f_equal.
    destruct (String.eqb_spec (speechVoice st) ""); simpl; [done |].
    destruct (find _ _) as [voice|] eqn:F; [| done].
    apply find_some in F as [Hin Hname].
    apply String.eqb_eq in Hname. by destruct (Hnone voice Hin).
Qed.

(** ** Moving through the list *)

(** With an engine and the cursor on a segment, [startReading] cancels
    what is queued and hands the engine the utterance of that segment. *)
Lemma startReading_on_segment (st : State) (synth : Synth) (segment : Segment) :
  speechSynthesis st = Some synth ->
  segment_at (currentSpeechIndex st) (contentSegments st) = Some segment ->
  startReading st =
    Returned
      (set_speechSynthesis
         (Some (speak (utterance_of st segment) (cancel synth)))
         (set_speechUtterance (Some (utterance_of st segment))
            (set_isReading true
               (set_isReading false
                  (set_speechSynthesis (Some (cancel synth)) st))))).
Proof.
  intros E G.
  assert (Hin : (0 <= currentSpeechIndex st
                 < Z.of_nat (length (contentSegments st)))%Z).
  { unfold segment_at in G.
    destruct (Z.ltb_spec (currentSpeechIndex st) 0); [done |].
    apply lookup_lt_Some in G. lia. }
  unfold startReading.
  destruct (Nat.eqb_spec (length (contentSegments st)) 0); [lia |].
  rewrite E. unfold stopReading. rewrite E. simpl.
  destruct (Z.leb_spec (Z.of_nat (length (contentSegments st)))
              (currentSpeechIndex st)); [lia |].
  unfold speakCurrentSegment. simpl.
  destruct (Z.leb_spec (Z.of_nat (length (contentSegments st)))
              (currentSpeechIndex st)); [lia |].
  by rewrite G.
Qed.

(** The state [nextSegment] returns from a segment that is being read
    and has a following one. *)
Lemma next_step (st : State) (synth : Synth) (following : Segment) :
  isReading st = true ->
  speechSynthesis st = Some synth ->
  segment_at (currentSpeechIndex st + 1) (contentSegments st) = Some following ->
  exists st1,
    nextSegment st = Returned st1
    /\ isReading st1 = true
    /\ currentSpeechIndex st1 = (currentSpeechIndex st + 1)%Z
    /\ speechSynthesis st1
       = Some (speak (utterance_of st following) (cancel synth))
    /\ contentSegments st1 = contentSegments st
    /\ (forall s, utterance_of st1 s = utterance_of st s).
Proof.
  intros R E G. unfold nextSegment. rewrite R. simpl.
  unfold stopReading. rewrite E.
  erewrite startReading_on_segment; [| done | exact G].
  by eexists.
Qed.

(** X5.  [nextSegment] while a segment is being read and another one
    follows it: the player goes on reading, one segment further; the
    utterance that was in flight is cancelled and the utterance of the
    following segment is the only one queued. *)
Theorem next_reads_following_segment
    (st : State) (synth : Synth) (following : Segment) :
  isReading st = true ->
  speechSynthesis st = Some synth ->
  segment_at (currentSpeechIndex st + 1) (contentSegments st) = Some following ->
  exists st' synth',
    nextSegment st = Returned st'
    /\ isReading st' = true
    /\ currentSpeechIndex st' = (currentSpeechIndex st + 1)%Z
    /\ speechSynthesis st' = Some synth'
    /\ pending synth' = [utterance_of st following]
    /\ error st' = error st.
Proof.
  intros R E G. unfold nextSegment. rewrite R. simpl.
  unfold stopReading. rewrite E.
  erewrite startReading_on_segment; [| done | exact G].
  by eexists _, _.
Qed.

(** X6.  [stopReading] does not lose the place: [startReading] after it
    reads the segment at the cursor where the player was stopped
    (whether or not it was reading), and that utterance is the only one
    queued. *)
Theorem stop_then_start_resumes
    (st : State) (synth : Synth) (segment : Segment) :
  speechSynthesis st = Some synth ->
  segment_at (currentSpeechIndex st) (contentSegments st) = Some segment ->
  currentSpeechIndex (stopReading st) = currentSpeechIndex st
  /\ exists st' synth',
       startReading (stopReading st) = Returned st'
       /\ isReading st' = true
       /\ currentSpeechIndex st' = currentSpeechIndex st
       /\ speechSynthesis st' = Some synth'
       /\ pending synth' = [utterance_of st segment].
Proof.
  intros E G. unfold stopReading. rewrite E. split; [done |].
  erewrite startReading_on_segment; [| done | exact G].
  by eexists _, _.
Qed.

(** X7.  [prevSegment] undoes [nextSegment]: from a segment that is being
    read and has a following one, next and then previous end reading the
    first of the two again, at its cursor. *)
Theorem previous_after_next
    (st : State) (synth : Synth) (segment following : Segment) :
  isReading st = true ->
  speechSynthesis st = Some synth ->
  segment_at (currentSpeechIndex st) (contentSegments st) = Some segment ->
  segment_at (currentSpeechIndex st + 1) (contentSegments st) = Some following ->
  exists st1 st2,
    nextSegment st = Returned st1
    /\ prevSegment st1 = Returned st2
    /\ isReading st2 = true
    /\ currentSpeechIndex st2 = currentSpeechIndex st
    /\ in_flight st2 = Some (utterance_of st segment).
Proof.
  intros R E G G'.
  assert (Hc : (0 <= currentSpeechIndex st)%Z).
  { unfold segment_at in G.
    by destruct (Z.ltb_spec (currentSpeechIndex st) 0). }
  destruct (next_step st synth following R E G') as (st1 & Hn & R1 & C1 & E1 & S1 & F1).
  exists st1. rewrite Hn.
  unfold prevSegment. rewrite R1. simpl.
  unfold stopReading. rewrite E1.
  erewrite (startReading_on_segment _ _ segment); [| done |].
  - eexists. split; [done |]. split; [done |]. simpl.
    split; [done |]. split; [rewrite C1; lia |].
    unfold in_flight. simpl. f_equal. exact (F1 segment).
  - simpl. rewrite C1, S1.
    by replace (Z.max 0 (currentSpeechIndex st + 1 - 1))
      with (currentSpeechIndex st) by lia.
Qed.

(** ** Settings during playback *)

(** X8.  A change of the rate while a segment is being read does not
    touch the utterance in flight (it keeps the rate it was built with);
    the utterance built when that one ends carries the new rate, with
    the pitch as it is. *)
Theorem rate_change_applies_to_next_utterance
    (st : State) (synth : Synth) (u : Utterance) (following : Segment) (v : num) :
  isReading st = true ->
  speechSynthesis st = Some synth ->
  pending synth = [u] ->
  segment_at (currentSpeechIndex st + 1) (contentSegments st) = Some following ->
  in_flight (write_speechRate numToString v st) = Some u
  /\ isReading (write_speechRate numToString v st) = true
  /\ exists st' u',
       signal_end (write_speechRate numToString v st) = Returned st'
       /\ in_flight st' = Some u'
       /\ utt_text u' = text following
       /\ utt_rate u' = v
       /\ utt_pitch u' = speechPitch st.
Proof.
  intros R E Q G.
  assert (Hw : exists ls,
    write_speechRate numToString v st =
      mkState (pageContent st) (pageTitle st) (isLoading st) (error st)
        (isReading st) (currentSpeechIndex st) (contentSegments st) v
        (speechPitch st) (speechVoice st) (availableVoices st)
        (speechSynthesis st) (speechUtterance st) ls).
  { unfold write_speechRate. destruct (decide (v = speechRate st)) as [-> |].
    - exists (localStorage st). by destruct st.
    - by eexists. }
  destruct Hw as [ls ->].
  unfold in_flight at 1. simpl. rewrite E, Q. split; [done |]. split; [done |].
  unfold signal_end, in_flight. simpl. rewrite ?E, ?Q. simpl.
  unfold utterance_onend, drop_in_flight. simpl. rewrite ?E, ?Q. simpl.
  unfold speakCurrentSegment. simpl. rewrite R. simpl.
  assert (Hin : (currentSpeechIndex st + 1
                 < Z.of_nat (length (contentSegments st)))%Z).
  { unfold segment_at in G.
    destruct (Z.ltb_spec (currentSpeechIndex st + 1) 0); [done |].
    apply lookup_lt_Some in G. lia. }
  destruct (Z.leb_spec (Z.of_nat (length (contentSegments st)))
              (currentSpeechIndex st + 1)); [lia |].
  rewrite G. by eexists _, _.
Qed.

(** ** Extraction and the player *)

(** X9.  An extraction, whatever the host answers, leaves the player
    alone: the cursor, the reading flag, the engine with its queue, the
    settings and the stored settings are after it what they were before
    it.  In particular it neither stops the reading nor takes the cursor
    back to the start of the new list. *)
Theorem extraction_leaves_player_alone (ans : HostAnswers) (st : State) :
  currentSpeechIndex (getPageContent ans st) = currentSpeechIndex st
  /\ isReading (getPageContent ans st) = isReading st
  /\ speechSynthesis (getPageContent ans st) = speechSynthesis st
  /\ speechUtterance (getPageContent ans st) = speechUtterance st
  /\ speechRate (getPageContent ans st) = speechRate st
  /\ speechPitch (getPageContent ans st) = speechPitch st
  /\ speechVoice (getPageContent ans st) = speechVoice st
  /\ availableVoices (getPageContent ans st) = availableVoices st
  /\ getItem key_rate (getPageContent ans st) = getItem key_rate st
  /\ getItem key_pitch (getPageContent ans st) = getItem key_pitch st
  /\ getItem key_voice (getPageContent ans st) = getItem key_voice st.
Proof.
  unfold getPageContent, getPageContent_finish.
  destruct (extract_try ans (getPageContent_begin st)) as [st'|e] eqn:T.
  - apply extract_try_completed in T as (article & _ & _ & ->).
    unfold getItem. simpl. by rewrite !lookup_insert_ne by done.
  - done.
Qed.

(** X10.  When an extraction begins while a segment is being read, the
    utterance in flight stays in flight over the emptied list; when the
    engine signals its end, the player stops reading, one cursor
    further, with nothing queued. *)
Theorem utterance_end_during_extraction
    (st : State) (synth : Synth) (u : Utterance) :
  isReading st = true ->
  speechSynthesis st = Some synth ->
  pending synth = [u] ->
  (0 <= currentSpeechIndex st)%Z ->
  isReading (getPageContent_begin st) = true
  /\ contentSegments (getPageContent_begin st) = []
  /\ in_flight (getPageContent_begin st) = Some u
  /\ exists st',
       signal_end (getPageContent_begin st) = Returned st'
       /\ isReading st' = false
       /\ currentSpeechIndex st' = (currentSpeechIndex st + 1)%Z
       /\ in_flight st' = None.
Proof.
  intros R E Q Hc.
  unfold in_flight at 1. simpl. rewrite E, Q.
  split; [done |]. split; [done |]. split; [done |].
  unfold signal_end, in_flight. simpl. rewrite ?E, ?Q. simpl.
  unfold utterance_onend, drop_in_flight. simpl. rewrite ?E, ?Q. simpl.
  unfold speakCurrentSegment. simpl. rewrite R. simpl.
  destruct (Z.leb_spec (Z.of_nat 0) (currentSpeechIndex st + 1)); [| lia].
  by eexists.
Qed.

(** X11.  An extraction that succeeds shows the article's title and
    content, takes the article's segments as the list (no segments if
    the article has none), stores content, title and location under
    their keys, and ends with the error slot empty and the loading flag
    down (X9 says what it leaves alone). *)
Theorem successful_extraction_effect
    (ans : HostAnswers) (st st' : State) :
  extract_try ans (getPageContent_begin st) = Completed st' ->
  exists article,
    ans_extract ans = Resolved (Some article)
    /\ truthy (a_error article) = false
    /\ pageTitle (getPageContent ans st) = a_title article
    /\ pageContent (getPageContent ans st) = a_content article
    /\ contentSegments (getPageContent ans st)
       = match a_segments article with
         | Some segments => segments
         | None => []
         end
    /\ error (getPageContent ans st) = ""
    /\ isLoading (getPageContent ans st) = false
    /\ getItem key_content (getPageContent ans st)
       = Some (to_item (a_content article))
    /\ getItem key_title (getPageContent ans st)
       = Some (to_item (a_title article))
    /\ getItem key_url (getPageContent ans st)
       = Some (to_item (a_url article)).
Proof.
  intros T. unfold getPageContent, getPageContent_finish. rewrite T.
  apply extract_try_completed in T as (article & Ha & He & ->).
  exists article. unfold getItem. simpl.
  repeat (rewrite lookup_insert_eq || rewrite lookup_insert_ne by done).
  done.
Qed.

(** ** A window without speech synthesis *)

Lemma step_without_engine (op : Op) (st : State) :
  speechSynthesis st = None -> isReading st = false ->
  speechSynthesis (step op st) = None /\ isReading (step op st) = false.
Proof.
  intros E R. destruct op; unfold step; simpl.
  - unfold voiceschanged. by rewrite E.
  - done.
  - unfold getPageContent_finish.
    destruct (extract_try ans st) as [st'|e] eqn:T; [| done].
    by apply extract_try_completed in T as (article & _ & _ & ->).
  - unfold startReading. rewrite E. by case_match.
  - unfold stopReading. by rewrite E.
  - unfold togglePause. by rewrite E.
  - unfold nextSegment. by rewrite R.
  - unfold prevSegment. by rewrite R.
  - unfold signal_end, in_flight. by rewrite E.
  - unfold signal_error, in_flight. by rewrite E.
  - by destruct (write_speechRate_player v st) as (_ & -> & ->).
  - by destruct (write_speechPitch_player v st) as (_ & -> & ->).
  - by destruct (write_speechVoice_player v st) as (_ & -> & ->).
Qed.

(** X12.  A popup mounted in a window without speech synthesis reports
    that once, at its start, and never reads: whatever happens to it
    afterwards it has no engine and is not reading.  Its Start button is
    offered all the same as soon as it has segments, and a click on it
    only puts "Speech synthesis not available" in the error slot. *)
Theorem mute_window_never_reads
    (ls : gmap string string) (voices : list Voice) (ops : list Op) :
  error (mounted ls (mkWindow false voices))
    = "Speech synthesis not supported in this browser"
  /\ speechSynthesis (run ops (mounted ls (mkWindow false voices))) = None
  /\ isReading (run ops (mounted ls (mkWindow false voices))) = false
  /\ (contentSegments (run ops (mounted ls (mkWindow false voices))) <> [] ->
      button_enabled StartReading (run ops (mounted ls (mkWindow false voices)))
        = true
      /\ click StartReading (run ops (mounted ls (mkWindow false voices)))
         = Returned
             (set_error "Speech synthesis not available"
                (run ops (mounted ls (mkWindow false voices))))).
Proof.
  split; [done |].
  assert (H0 : speechSynthesis (mounted ls (mkWindow false voices)) = None
               /\ isReading (mounted ls (mkWindow false voices)) = false).
  { unfold mounted.
    by destruct (onMounted_player (mkWindow false voices) (initial one ls))
      as (_ & -> & ->). }
  assert (H : forall st, speechSynthesis st = None /\ isReading st = false ->
                speechSynthesis (run ops st) = None
                /\ isReading (run ops st) = false).
  { induction ops as [|op ops' IH]; intros st [E R]; simpl; [done |].
    apply IH. by apply step_without_engine. }
  destruct (H _ H0) as [E R]. split; [done |]. split; [done |].
  intros Hne. unfold button_enabled, reader_controls, click, startReading.
  rewrite R, E.
  by destruct (contentSegments _).
Qed.

(** ** The voices *)

Lemma find_first {A : Type} (f : A -> bool) (l : list A) (x : A) :
  find f l = Some x ->
  exists before after,
    l = (before ++ x :: after)%list
    /\ f x = true
    /\ (forall y, In y before -> f y = false).
Proof.
  induction l as [|a l IH]; simpl; [done |].
  destruct (f a) eqn:Fa.
  - intros [= <-]. exists [], l. by repeat split.
  - intros H. destruct (IH H) as (before & after & -> & Fx & Hb).
    exists (a :: before), after. repeat split; [done |].
    intros y [<- | Hy]; [done | by apply Hb].
Qed.

Lemma write_speechVoice_effect (v : string) (st : State) :
  speechVoice (write_speechVoice v st) = v
  /\ availableVoices (write_speechVoice v st) = availableVoices st
  /\ (v <> speechVoice st -> getItem key_voice (write_speechVoice v st) = Some v).
Proof.
  unfold write_speechVoice, getItem.
  destruct (decide (v = speechVoice st)) as [-> |]; simpl; [done |].
  by rewrite lookup_insert_eq.
Qed.

(** X13.  [getVoices] with an empty list changes nothing.  With voices,
    it makes them the available ones; a voice that is selected already
    stays selected; and when none is selected it selects the first voice
    of the list that is English and the platform's default, or else the
    first voice of the list, and stores its name (unless that is
    empty). *)
Theorem getVoices_selects_default (voices : list Voice) (st : State) :
  getVoices [] st = st
  /\ (voices <> [] -> availableVoices (getVoices voices st) = voices)
  /\ (speechVoice st <> "" ->
      speechVoice (getVoices voices st) = speechVoice st
      /\ localStorage (getVoices voices st) = localStorage st)
  /\ (voices <> [] -> speechVoice st = "" ->
      exists voice,
        In voice voices
        /\ speechVoice (getVoices voices st) = voice_name voice
        /\ (voice_name voice <> "" ->
            getItem key_voice (getVoices voices st) = Some (voice_name voice))
        /\ ((exists before after,
               voices = (before ++ voice :: after)%list
               /\ includes "en" (voice_lang voice) = true
               /\ voice_default voice = true
               /\ forall w, In w before ->
                    includes "en" (voice_lang w) && voice_default w = false)
            \/ (head voices = Some voice
                /\ forall w, In w voices ->
                     includes "en" (voice_lang w) && voice_default w = false))).
Proof.
  split; [done |]. split; [| split].
  - intros Hne. unfold getVoices.
    destruct voices as [|v0 rest]; [done |]. simpl.
    repeat case_match; try done;
      match goal with |- context [write_speechVoice ?v ?s] =>
        by destruct (write_speechVoice_effect v s) as (_ & -> & _)
      end.
  - intros Hsel. unfold getVoices.
    destruct (negb (length voices =? 0)%nat); [| done]. simpl.
    by destruct (String.eqb_spec (speechVoice st) "").
  - intros Hne Hnone. unfold getVoices.
    destruct voices as [|v0 rest] eqn:V; [done |]. rewrite <- V in *.
    replace (negb (length voices =? 0)%nat) with true by (by rewrite V).
    simpl. rewrite Hnone. simpl.
    destruct (find _ voices) as [voice|] eqn:F.
    + destruct (find_first _ _ _ F) as (before & after & Hl & Hv & Hb).
      exists voice.
      match goal with |- context [write_speechVoice ?v ?s] =>
        destruct (write_speechVoice_effect v s) as (-> & _ & Hk)
      end.
      split; [rewrite Hl; apply in_or_app; right; by left |].
      split; [done |].
      split; [intros Hn; apply Hk; simpl; congruence |].
      left. exists before, after.
      apply andb_true_iff in Hv as [? ?]. done.
    + rewrite V. simpl. exists v0.
      match goal with |- context [write_speechVoice ?v ?s] =>
        destruct (write_speechVoice_effect v s) as (-> & _ & Hk)
      end.
      split; [by left |]. split; [done |].
      split; [intros Hn; apply Hk; simpl; congruence |].
      right. split; [done |].
      intros w Hw. apply (find_none _ _ F). by rewrite V.
Qed.

(** ** The "Now Reading" panel *)

(** X14.  In every state the popup can be in, when the "Now Reading"
    panel is shown the segment it renders exists: the rendering of its
    text never reads a property of [undefined]. *)
Theorem now_reading_renders (st : State) :
  reachable st ->
  now_reading_shown st = true ->
  exists segment,
    segment_at (currentSpeechIndex st) (contentSegments st) = Some segment
    /\ now_reading_text st = Some (text segment).
Proof.
  intros Hst Hshown. apply reachable_well_formed in Hst as (Hc & _).
  unfold now_reading_shown in Hshown.
  apply andb_true_iff in Hshown as [_ Hshown].
  apply andb_true_iff in Hshown as [_ Hlt]. apply Z.ltb_lt in Hlt.
  destruct (segment_at_in_range (currentSpeechIndex st) (contentSegments st))
    as [segment G]; [lia |].
  exists segment. unfold now_reading_text. by rewrite G.
Qed.







(** X16.  Where the Start button can be clicked and the window has
    speech synthesis, a click on it always starts the reading: it
    returns with the player reading, the "Now Reading" panel shown, the
    segment at the cursor in flight and on the panel, and the error slot
    as it was. *)
Theorem start_button_starts_reading (st : State) :
  reachable st ->
  is_Some (speechSynthesis st) ->
  button_enabled StartReading st = true ->
  exists st' segment,
    click StartReading st = Returned st'
    /\ isReading st' = true
    /\ now_reading_shown st' = true
    /\ now_reading_text st' = Some (text segment)
    /\ in_flight st' = Some (utterance_of st segment)
    /\ contentSegments st' = contentSegments st
    /\ error st' = error st.
Proof.
  intros Hst [synth E] Hb. apply reachable_well_formed in Hst as (Hc & _).
  unfold button_enabled, reader_controls in Hb.
  apply andb_true_iff in Hb as [Hlen _]. apply Nat.ltb_lt in Hlen.
  unfold click, startReading.
  destruct (Nat.eqb_spec (length (contentSegments st)) 0); [lia |].
  rewrite E. unfold stopReading. rewrite E. simpl.
  set (len := Z.of_nat (length (contentSegments st))).
  set (c0 := if (len <=? currentSpeechIndex st)%Z then 0%Z
             else currentSpeechIndex st).
  assert (Hc0 : (0 <= c0 < len)%Z).
  { subst c0 len. destruct (Z.leb_spec
      (Z.of_nat (length (contentSegments st))) (currentSpeechIndex st)); lia. }
  destruct (segment_at_in_range c0 (contentSegments st)) as [segment G];
    [done |].
  exists (set_speechSynthesis
            (Some (speak (utterance_of st segment) (cancel synth)))
            (set_speechUtterance (Some (utterance_of st segment))
               (set_isReading true
                  (set_currentSpeechIndex c0
                     (set_isReading false
                        (set_speechSynthesis (Some (cancel synth)) st)))))),
    segment.
  split.
  - subst c0. destruct (len <=? currentSpeechIndex st)%Z eqn:L;
      unfold speakCurrentSegment; simpl; fold len.
    + destruct (Z.leb_spec len 0); [lia |]. by rewrite G.
    + rewrite L. by rewrite G.
  - unfold now_reading_shown, now_reading_text, reader_controls, in_flight.
    simpl. rewrite G. fold len.
    destruct (Nat.ltb_spec 0 (length (contentSegments st))); [| lia].
    destruct (Z.ltb_spec c0 len); [| lia]. done.
Qed.

(** * When the engine signals late *)

(** ** Reading needs an engine *)

Lemma step_reading_engine (op : Op) (st : State) :
  (isReading st = true -> is_Some (speechSynthesis st)) ->
  isReading (step op st) = true -> is_Some (speechSynthesis (step op st)).
Proof.
  intros H. destruct (player_op op) eqn:P.
  { destruct (step_reading op st P) as (_ & He & Hr).
    intros R. apply He. destruct (Hr R) as [R' | [_ ?]]; [by apply H | done]. }
  assert (F : forall st',
             isReading st' = isReading st ->
             speechSynthesis st' = speechSynthesis st ->
             isReading st' = true -> is_Some (speechSynthesis st')).
  { by intros st' -> ->. }
  destruct op; try done; unfold step; simpl; apply F.
  - destruct (getVoices_player voices st) as (_ & A & _).
    unfold voiceschanged. by case_match.
  - destruct (getVoices_player voices st) as (_ & _ & B).
    unfold voiceschanged. by case_match.
  - destruct (extract_try ans st) as [st'|e] eqn:T; [| done].
    by apply extract_try_completed in T as (article & _ & _ & ->).
  - destruct (extract_try ans st) as [st'|e] eqn:T; [| done].
    by apply extract_try_completed in T as (article & _ & _ & ->).
  - apply write_speechRate_player.
  - apply write_speechRate_player.
  - apply write_speechPitch_player.
  - apply write_speechPitch_player.
  - apply write_speechVoice_player.
  - apply write_speechVoice_player.
Qed.

Lemma happen_reading_engine (h : Happening) (st : State) :
  (isReading st = true -> is_Some (speechSynthesis st)) ->
  isReading (happen h st) = true -> is_Some (speechSynthesis (happen h st)).
Proof.
  intros H. destruct h as [op | |]; simpl.
  - by apply step_reading_engine.
  - unfold utterance_onend.
    match goal with |- context [speakCurrentSegment ?s] =>
      destruct (speakCurrentSegment_reading s) as (_ & He & Hr)
    end.
    intros R. apply He. simpl. apply H. by apply Hr in R.
  - done.
Qed.

Lemma attainable_reading_engine (st : State) :
  attainable st -> isReading st = true -> is_Some (speechSynthesis st).
Proof.
  intros (ls & win & hs & ->).
  assert (H0 : isReading (mounted ls win) = true ->
               is_Some (speechSynthesis (mounted ls win))).
  { unfold mounted.
    by destruct (onMounted_player win (initial one ls)) as (_ & -> & _). }
  revert H0. generalize (mounted ls win).
  induction hs as [|h hs IH]; intros st H0; simpl; [done |].
  apply IH. by apply happen_reading_engine.
Qed.

(** ** Stopping *)

(** C7 (amended).  In every state the popup can be in, also after
    signals of the engine for utterances that were cancelled,
    [stopReading] leaves the player not reading and the engine with an
    empty queue, and changes nothing else.  A second call changes
    nothing.  Called while the player is not reading it changes nothing
    exactly when nothing is queued: an utterance that is queued then
    (see [Sample.interrupted]) is cancelled. *)
Theorem stop_cancels_and_is_idempotent (st : State) :
  attainable st ->
  isReading (stopReading st) = false
  /\ in_flight (stopReading st) = None
  /\ (forall synth,
        speechSynthesis (stopReading st) = Some synth -> pending synth = [])
  /\ stopReading st =
       set_isReading false
         (set_speechSynthesis (cancel <$> speechSynthesis st) st)
  /\ stopReading (stopReading st) = stopReading st
  /\ (isReading st = false ->
      (stopReading st = st <-> in_flight st = None)).
Proof.
  intros Hat. pose proof (attainable_reading_engine st Hat) as He.
  unfold stopReading, in_flight.
  destruct (speechSynthesis st) as [synth|] eqn:E; simpl.
  - split; [done |]. split; [done |]. split; [by intros ? [= <-] |].
    split; [done |]. split; [done |].
    intros R. split.
    + intros Heq. apply (f_equal speechSynthesis) in Heq. simpl in Heq.
      rewrite E in Heq. injection Heq as <-. done.
    + intros Hq. destruct (pending synth) as [|u q] eqn:Q; [| done].
      destruct st as [? ? ? ? ? ? ? ? ? ? ? sy ? ?]. simpl in *. subst.
      destruct synth as [q pa]. simpl in *. by subst.
  - rewrite E. simpl.
    assert (R : isReading st = false).
    { destruct (isReading st); [| done]. by destruct (He eq_refl). }
    split; [done |]. split; [done |]. split; [by intros ? [=] |].
    split; [| done].
    destruct st as [? ? ? ? ? ? ? ? ? ? ? sy ? ?]. simpl in *. by subst.
Qed.

(** ** The queue *)

Lemma short_queue_frame (st st' : State) :
  speechSynthesis st' = speechSynthesis st -> short_queue st -> short_queue st'.
Proof. unfold short_queue. by intros ->. Qed.

Lemma short_queue_speakCurrentSegment (st : State) :
  (forall synth, speechSynthesis st = Some synth -> pending synth = []) ->
  short_queue (state_of (speakCurrentSegment st)).
Proof.
  intros Hq. unfold speakCurrentSegment.
  assert (H0 : short_queue st).
  { intros synth E. rewrite (Hq synth E). simpl. lia. }
  destruct (negb (isReading st) || _); simpl.
  { by apply (short_queue_frame st). }
  destruct (segment_at _ _) as [segment|]; simpl; [| done].
  destruct (speechSynthesis st) as [synth|] eqn:E; simpl.
  - intros synth' [= <-]. simpl. rewrite (Hq synth eq_refl). simpl. lia.
  - apply (short_queue_frame st); [by simpl | done].
Qed.

Lemma short_queue_startReading (st : State) :
  short_queue st -> short_queue (state_of (startReading st)).
Proof.
  intros H. unfold startReading.
  destruct (length (contentSegments st) =? 0)%nat; simpl.
  { by apply (short_queue_frame st). }
  destruct (speechSynthesis st) as [synth|] eqn:E; simpl.
  2: { by apply (short_queue_frame st). }
  unfold stopReading. rewrite E.
  apply short_queue_speakCurrentSegment.
  case_match; simpl; by intros ? [= <-].
Qed.

Lemma short_queue_stopReading (st : State) :
  short_queue st -> short_queue (stopReading st).
Proof.
  intros H. unfold stopReading.
  destruct (speechSynthesis st) as [synth|] eqn:E; [| done].
  intros synth' [= <-]. simpl. lia.
Qed.

Lemma short_queue_step (op : Op) (st : State) :
  short_queue st -> short_queue (step op st).
Proof.
  intros H. destruct op; unfold step; simpl.
  - unfold voiceschanged. case_match; [| done].
    apply (short_queue_frame st); [| done].
    by destruct (getVoices_player voices st) as (_ & _ & ->).
  - done.
  - unfold getPageContent_finish.
    destruct (extract_try ans st) as [st'|e] eqn:T; [| done].
    by apply extract_try_completed in T as (article & _ & _ & ->).
  - by apply short_queue_startReading.
  - by apply short_queue_stopReading.
  - unfold togglePause.
    destruct (speechSynthesis st) as [synth|] eqn:E; [| done].
    destruct (paused synth); intros synth' [= <-]; simpl; by apply H.
  - unfold nextSegment. case_match; [done |].
    apply short_queue_startReading.
    by apply (short_queue_frame (stopReading st)), short_queue_stopReading.
  - unfold prevSegment. case_match; [done |].
    apply short_queue_startReading.
    by apply (short_queue_frame (stopReading st)), short_queue_stopReading.
  - unfold signal_end. destruct (in_flight st) as [u|] eqn:U; [| done].
    unfold utterance_onend, drop_in_flight. unfold in_flight in U.
    destruct (speechSynthesis st) as [synth|] eqn:E; [| done].
    apply short_queue_speakCurrentSegment. simpl.
    intros synth' [= <-]. simpl.
    specialize (H synth E).
    destruct (pending synth) as [|u' [|u'' q]]; simpl in *; [done | done | lia].
  - unfold signal_error. destruct (in_flight st) as [u|] eqn:U; [| done].
    unfold utterance_onerror, drop_in_flight. unfold in_flight in U.
    destruct (speechSynthesis st) as [synth|] eqn:E; [| done].
    intros synth' [= <-]. simpl. specialize (H synth E).
    destruct (pending synth); simpl in *; lia.
  - apply (short_queue_frame st); [| done].
    by destruct (write_speechRate_player v st) as (_ & _ & ->).
  - apply (short_queue_frame st); [| done].
    by destruct (write_speechPitch_player v st) as (_ & _ & ->).
  - apply (short_queue_frame st); [| done].
    by destruct (write_speechVoice_player v st) as (_ & _ & ->).
Qed.

(** X2.  Whatever the engine signals, as long as it signals an end only
    for the utterance in flight (its error signals may also come late,
    for utterances that were cancelled), the engine never has more than
    one utterance of the popup queued, and the player is reading only
    with an engine. *)
Theorem queue_holds_at_most_one
    (ls : gmap string string) (win : Window) (hs : list Happening) :
  Forall (fun h => h <> LateEnd) hs ->
  (forall synth,
     speechSynthesis (happenings hs (mounted ls win)) = Some synth ->
     (length (pending synth) <= 1)%nat)
  /\ (isReading (happenings hs (mounted ls win)) = true ->
      is_Some (speechSynthesis (happenings hs (mounted ls win)))).
Proof.
  intros Hhs. split.
  - change (short_queue (happenings hs (mounted ls win))).
    assert (H0 : short_queue (mounted ls win)).
    { unfold mounted. intros synth.
      destruct (onMounted_player win (initial one ls)) as (_ & _ & ->).
      simpl. destruct (win_speechSynthesis win); intros [= <-]. simpl. lia. }
    revert H0. generalize (mounted ls win).
    induction Hhs as [|h hs' Hh _ IH]; intros st H0; simpl; [done |].
    apply IH. destruct h as [op | |]; simpl.
    + by apply short_queue_step.
    + done.
    + by apply (short_queue_frame st).
  - apply attainable_reading_engine. by exists ls, win, hs.
Qed.

End Facts.

Unset Default Proof Using.

(** * The function run in the page *)

Section PageFacts.

Context {num : Type}.
Variable trim : string -> string.
Variable toLowerCase : string -> string.

#[local] Abbreviation extract_segments := (extract_segments trim toLowerCase).
#[local] Abbreviation page_function := (page_function trim toLowerCase).

(** The pushes of the [forEach], one element at a time. *)
Lemma extract_segments_fold (contentElements : list Element) (acc : list Segment) :
  foldl (push_element trim toLowerCase) acc contentElements =
    (acc ++ extract_segments contentElements)%list.
Proof.
  unfold extract_segments.
  revert acc. induction contentElements as [|element rest IH]; intros acc; simpl.
  - by rewrite app_nil_r.
  - rewrite IH, (IH (push_element _ _ [] element)).
    unfold push_element. case_match; simpl; [| done].
    by rewrite <- app_assoc.
Qed.

Lemma extract_segments_cons (element : Element) (rest : list Element) :
  extract_segments (element :: rest) =
    (push_element trim toLowerCase [] element ++ extract_segments rest)%list.
Proof. unfold extract_segments at 1. simpl. apply extract_segments_fold. Qed.

(** What each segment that is built is built from. *)
Lemma extract_segments_each (contentElements : list Element) :
  Forall (fun segment =>
            text segment <> ""
            /\ isPriority segment = String.prefix "h" (tag segment)
            /\ exists element,
                 In element contentElements
                 /\ text segment = trim (textContent element)
                 /\ tag segment = toLowerCase (tagName element))
    (extract_segments contentElements).
Proof.
  induction contentElements as [|element rest IH]; [by constructor |].
  rewrite extract_segments_cons. apply Forall_app. split.
  - unfold push_element.
    destruct (trim (textContent element)) as [|c t] eqn:T; simpl;
      [by constructor |].
    constructor; [| by constructor]. simpl.
    split; [done |]. split; [done |].
    exists element. split; [by left | done].
  - eapply Forall_impl; [exact IH |]. simpl.
    intros segment (? & ? & element' & ? & ? & ?).
    split; [done |]. split; [done |].
    exists element'. split; [by right | done].
Qed.

(** X17.  The segments the page function builds are, in document order,
    the trimmed texts of the elements whose trimmed text is not empty:
    no segment has an empty text, each one carries the lower-cased tag
    name of its element and is marked as priority exactly when that tag
    begins with "h", and the segments of a document are those of its
    first part followed by those of the rest. *)
Theorem extracted_segments_in_order (contentElements more : list Element) :
  text <$> extract_segments contentElements =
    filter (fun t : string => t <> "")
      ((fun element => trim (textContent element)) <$> contentElements)
  /\ Forall (fun segment =>
              text segment <> ""
              /\ isPriority segment = String.prefix "h" (tag segment)
              /\ exists element,
                   In element contentElements
                   /\ text segment = trim (textContent element)
                   /\ tag segment = toLowerCase (tagName element))
       (extract_segments contentElements)
  /\ extract_segments (contentElements ++ more) =
       (extract_segments contentElements ++ extract_segments more)%list.
Proof.
  split; [| split].
  - induction contentElements as [|element rest IH]; [done |].
    rewrite extract_segments_cons, fmap_app, IH, fmap_cons, filter_cons.
    unfold push_element.
    by destruct (trim (textContent element)) as [|c t] eqn:T.
  - apply extract_segments_each.
  - unfold extract_segments at 1. rewrite foldl_app.
    fold (extract_segments contentElements).
    apply extract_segments_fold.
Qed.

(** X18.  An extraction whose host runs the page function: when the
    function found no article, the popup reports "Failed to parse
    content" and has no segments; when something threw in the page, it
    reports what was thrown (shown as a string, if that is not empty);
    when there is an article, its segments become the list, none of
    them with an empty text, its title and content are shown, and the
    error slot is empty. *)
Theorem extraction_through_page_function
    (ans : HostAnswers) (tabs : list Tab) (r : PageRun) (st : State (num:=num)) :
  ans_tabs ans = Resolved tabs ->
  no_active_tab tabs = false ->
  ans_inject ans = Resolved tt ->
  ans_extract ans = Resolved (Some (page_function r)) ->
  match r with
  | PageNoArticle =>
      error (getPageContent ans st) = "Failed to parse content"
      /\ contentSegments (getPageContent ans st) = []
  | PageThrew shown =>
      shown <> "" ->
      error (getPageContent ans st) = shown
      /\ contentSegments (getPageContent ans st) = []
  | PageArticle title content contentElements href =>
      error (getPageContent ans st) = ""
      /\ contentSegments (getPageContent ans st)
         = extract_segments contentElements
      /\ Forall (fun segment => text segment <> "")
           (contentSegments (getPageContent ans st))
      /\ pageTitle (getPageContent ans st) = title
      /\ pageContent (getPageContent ans st) = content
  end.
Proof.
  intros Ht Hn Hi He.
  unfold getPageContent, getPageContent_finish, extract_try.
  rewrite Ht, Hn, Hi, He.
  destruct r as [shown | | title content contentElements href]; simpl.
  - intros Hs. by destruct (String.eqb_spec shown "").
  - done.
  - split; [done |]. split; [done |]. split; [| done].
    eapply Forall_impl; [apply extract_segments_each |].
    by intros segment (? & _).
Qed.

End PageFacts.

(** * The second script *)

Section SecondFacts.

Context {num : Type} `{!EqDecision num}.
Variable zero : num.
Variable plus_one : num -> num.
Variable numToString : num -> string.
Variable parseInt : string -> num.
Variable trim : string -> string.
Variable length16 : string -> nat.

#[local] Abbreviation CState := (@Second.State num).
#[local] Abbreviation cmounted := (Second.mounted zero numToString parseInt).
#[local] Abbreviation crun := (Second.run plus_one numToString).
#[local] Abbreviation cstep := (Second.step plus_one numToString).
#[local] Abbreviation increment := (Second.increment plus_one numToString).
#[local] Abbreviation write_count := (Second.write_count numToString).

Lemma second_write_count (v : num) (st : CState) :
  Second.count (write_count v st) = v
  /\ Second.pageContent (write_count v st) = Second.pageContent st
  /\ Second.isLoading (write_count v st) = Second.isLoading st
  /\ Second.error (write_count v st) = Second.error st
  /\ (v <> Second.count st ->
      Second.getItem Second.key_count (write_count v st) = Some (numToString v))
  /\ (v = Second.count st -> write_count v st = st).
Proof.
  unfold Second.write_count, Second.getItem.
  destruct (decide (v = Second.count st)) as [-> |]; simpl; [done |].
  by rewrite lookup_insert_eq.
Qed.

(** A completed attempt of the second script's extraction. *)
Lemma second_extract_try_completed (ans : Second.Answers) (st st' : CState) :
  Second.extract_try ans st = Second.Completed st' ->
  exists article,
    Second.ans_extract ans = Resolved (Some article)
    /\ st' =
       Second.setItem key_url (to_item (a_url article))
         (Second.setItem key_title (to_item (a_title article))
           (Second.setItem key_content (to_item (a_content article))
             (Second.mkState (Second.count st) (a_content article)
                (Second.isLoading st) (Second.error st)
                (Second.localStorage st)))).
Proof.
  unfold Second.extract_try. intros H.
  repeat case_match; simplify_eq. by eexists.
Qed.

Section CountRoundTrip.

Hypothesis parse_print : forall x, parseInt (numToString x) = x.

(** What a mount reads back from the store is the counter. *)
Lemma second_step_saved (op : Second.Op) (st : CState) :
  match Second.getItem Second.key_count st with
  | Some s => parseInt s = Second.count st
  | None => Second.count st = zero
  end ->
  match Second.getItem Second.key_count (cstep op st) with
  | Some s => parseInt s = Second.count (cstep op st)
  | None => Second.count (cstep op st) = zero
  end.
Proof using parse_print.
  intros H. destruct op; simpl.
  - unfold Second.increment, Second.write_count, Second.getItem in *.
    destruct (decide _); [done |]. simpl.
    by rewrite lookup_insert_eq, parse_print.
  - done.
  - unfold Second.getPageContent_finish.
    destruct (Second.extract_try ans st) as [st'|e] eqn:T; [| done].
    apply second_extract_try_completed in T as (article & _ & ->).
    unfold Second.getItem in *. simpl.
    by rewrite !lookup_insert_ne by done.
Qed.

Lemma second_mounted_saved (ls : gmap string string) :
  match Second.getItem Second.key_count (cmounted ls) with
  | Some s => parseInt s = Second.count (cmounted ls)
  | None => Second.count (cmounted ls) = zero
  end.
Proof using parse_print.
  unfold Second.mounted, Second.onMounted, Second.write_count, Second.getItem.
  simpl. destruct (ls !! Second.key_count) as [s|] eqn:E; simpl.
  - destruct (decide _) as [Heq|]; simpl.
    + by rewrite E.
    + by rewrite lookup_insert_eq, parse_print.
  - by rewrite E.
Qed.

Lemma second_run_saved (ops : list Second.Op) (st : CState) :
  match Second.getItem Second.key_count st with
  | Some s => parseInt s = Second.count st
  | None => Second.count st = zero
  end ->
  match Second.getItem Second.key_count (crun ops st) with
  | Some s => parseInt s = Second.count (crun ops st)
  | None => Second.count (crun ops st) = zero
  end.
Proof using parse_print.
  revert st. induction ops as [|op ops' IH]; intros st H; simpl; [done |].
  apply IH. by apply second_step_saved.
Qed.

(** X19.  The counter of the second script is written through and read
    back: a click that changes it stores the new value, printed, under
    its key; and in every state the component can be in, a component
    mounted over the store as it is starts with the same counter (the
    number functions of the platform being taken to read a printed
    number back as itself). *)
Theorem counter_is_persisted (ls : gmap string string) (ops : list Second.Op) :
  Second.count (increment (crun ops (cmounted ls)))
    = plus_one (Second.count (crun ops (cmounted ls)))
  /\ (plus_one (Second.count (crun ops (cmounted ls)))
        <> Second.count (crun ops (cmounted ls)) ->
      Second.getItem Second.key_count (increment (crun ops (cmounted ls)))
        = Some (numToString (plus_one (Second.count (crun ops (cmounted ls))))))
  /\ Second.count (cmounted (Second.localStorage (crun ops (cmounted ls))))
     = Second.count (crun ops (cmounted ls)).
Proof using parse_print.
  set (st := crun ops (cmounted ls)).
  destruct (second_write_count (plus_one (Second.count st)) st)
    as (Hc & _ & _ & _ & Hk & _).
  split; [done |]. split; [done |].
  assert (Hsaved : match Second.getItem Second.key_count st with
                   | Some s => parseInt s = Second.count st
                   | None => Second.count st = zero
                   end).
  { subst st. apply second_run_saved, second_mounted_saved. }
  unfold Second.mounted, Second.onMounted.
  unfold Second.getItem in *. simpl.
  destruct (Second.localStorage st !! Second.key_count) as [s|]; [| done].
  destruct (second_write_count (parseInt s)
              (Second.initial zero (Second.localStorage st))) as (-> & _).
  done.
Qed.

End CountRoundTrip.

(** X20.  The extraction of the second script, whatever the host
    answers, leaves the counter and its stored value alone and ends with
    the loading flag down.  When it fails, the content shown is empty
    and the error slot holds the failure's message; when it succeeds,
    the article's content is shown and stored, with title and location,
    under their keys, and the error slot is empty. *)
Theorem second_extraction_effect (ans : Second.Answers) (st : CState) :
  Second.count (Second.getPageContent ans st) = Second.count st
  /\ Second.getItem Second.key_count (Second.getPageContent ans st)
     = Second.getItem Second.key_count st
  /\ Second.isLoading (Second.getPageContent ans st) = false
  /\ (forall e,
        Second.extract_try ans (Second.getPageContent_begin st) = Second.Raised e ->
        Second.pageContent (Second.getPageContent ans st) = Some ""
        /\ Second.error (Second.getPageContent ans st) = error_text e
        /\ Second.localStorage (Second.getPageContent ans st)
           = Second.localStorage st)
  /\ (forall st',
        Second.extract_try ans (Second.getPageContent_begin st)
          = Second.Completed st' ->
        exists article,
          Second.ans_extract ans = Resolved (Some article)
          /\ Second.pageContent (Second.getPageContent ans st) = a_content article
          /\ Second.error (Second.getPageContent ans st) = ""
          /\ Second.getItem key_content (Second.getPageContent ans st)
             = Some (to_item (a_content article))
          /\ Second.getItem key_title (Second.getPageContent ans st)
             = Some (to_item (a_title article))
          /\ Second.getItem key_url (Second.getPageContent ans st)
             = Some (to_item (a_url article))).
Proof.
  unfold Second.getPageContent, Second.getPageContent_finish.
  destruct (Second.extract_try ans (Second.getPageContent_begin st))
    as [st'|e] eqn:T.
  - apply second_extract_try_completed in T as (article & Ha & ->).
    unfold Second.getItem. simpl.
    split; [done |].
    split; [by rewrite !lookup_insert_ne by done |].
    split; [done |]. split; [done |].
    intros st'' [= <-]. exists article.
    repeat (rewrite lookup_insert_eq || rewrite lookup_insert_ne by done).
    done.
  - simpl. split; [done |]. split; [done |]. split; [done |].
    split; [by intros e' [= <-] | done].
Qed.

Lemma string_app_nil_r (s : string) : s ++ "" = s.
Proof.
  induction s as [|c s IH]; [done |].
  change (String c (s ++ "") = String c s). by rewrite IH.
Qed.

Lemma string_app_assoc (s1 s2 s3 : string) : (s1 ++ s2) ++ s3 = s1 ++ s2 ++ s3.
Proof.
  induction s1 as [|c s1 IH]; [done |].
  change (String c ((s1 ++ s2) ++ s3) = String c (s1 ++ s2 ++ s3)).
  by rewrite IH.
Qed.

Lemma string_concat_cons (x : string) (xs : list string) :
  String.concat "" (x :: xs) = x ++ String.concat "" xs.
Proof.
  destruct xs; [| done].
  change (x = x ++ ""). by rewrite string_app_nil_r.
Qed.

(** The content that [getReadableContent] builds, one paragraph at a
    time. *)
Lemma add_paragraph_fold (paragraphs : list string) (content : string) :
  foldl (Second.add_paragraph trim length16) content paragraphs =
    content ++
    String.concat ""
      (map (fun t => "<p>" ++ t ++ "</p>")
         (List.filter
            (fun t => truthy (Some t) && (20 <? length16 (trim t))%nat)
            paragraphs)).
Proof.
  revert content.
  induction paragraphs as [|t rest IH]; intros content; simpl.
  - by rewrite string_app_nil_r.
  - rewrite IH. unfold Second.add_paragraph, truthy.
    destruct (negb (t =? "") && _); [| done].
    cbn [map]. by rewrite string_concat_cons, string_app_assoc.
Qed.

(** X21.  [getReadableContent] keeps the paragraphs whose text, trimmed,
    has a [length] (the platform's, in UTF-16 code units) above 20.  If
    there are any, the content it returns is these texts (untrimmed),
    each wrapped in a [<p>] element, in document order; only if there are none does it fall back to the
    inner HTML of [main] (or [body]), and only then can it throw, when
    the document has neither.  It returns the document's title and
    location with either content. *)
Theorem readable_content_of_paragraphs (doc : Second.Document) :
  let kept :=
    List.filter
      (fun t => truthy (Some t) && (20 <? length16 (trim t))%nat)
      (Second.doc_paragraphs doc) in
  (kept <> [] ->
   Second.getReadableContent trim length16 doc =
     Some (mkArticle None (Some (Second.doc_title doc))
             (Some (String.concat "" (map (fun t => "<p>" ++ t ++ "</p>") kept)))
             None (Some (Second.doc_href doc))))
  /\ (kept = [] ->
      Second.getReadableContent trim length16 doc =
        match Second.doc_main doc with
        | Some innerHTML =>
            Some (mkArticle None (Some (Second.doc_title doc)) (Some innerHTML)
                    None (Some (Second.doc_href doc)))
        | None => None
        end).
Proof.
  intros kept. unfold Second.getReadableContent.
  rewrite add_paragraph_fold. fold kept.
  change ("" ++ String.concat ""
                  (map (fun t => "<p>" ++ t ++ "</p>") kept))
    with (String.concat "" (map (fun t => "<p>" ++ t ++ "</p>") kept)).
  split.
  - destruct kept as [|t rest]; [done |]. intros _.
    set (content := String.concat "" _).
    assert (truthy (Some content) = true) as ->; [| done].
    subst content. cbn [map]. by rewrite string_concat_cons.
  - by intros ->.
Qed.

End SecondFacts.

(** * Examples *)

Lemma sample_parse_print (n : N) : Sample.parse (Sample.print n) = n.
Proof.
  unfold Sample.parse, Sample.print.
  rewrite NilZero.usu.
  - apply DecimalN.Unsigned.of_to.
  - destruct n; simpl; [discriminate | apply DecimalPos.Unsigned.to_uint_nonnil].
Qed.

Lemma sample_reachable (ops : list (Op (num:=N))) :
  reachable 1%N Sample.print Sample.parse (Sample.run_sample ops Sample.fresh).
Proof. exists ∅, Sample.window, ops. reflexivity. Qed.

(** The scenario of the three segments: reading from the start speaks
    "Intro", "Heading" and "Body" at cursors 0, 1 and 2 and ends idle at
    cursor 3. *)
Lemma start_reads_to_the_end_witness :
  exists st1,
    startReading Sample.loaded = Returned st1
    /\ isReading st1 = true
    /\ currentSpeechIndex st1 = 0%Z
    /\ forall fuel, (3 <= fuel)%nat ->
       exists final,
         playback fuel st1 =
           ([(0%Z, Sample.utter "Intro"); (1%Z, Sample.utter "Heading");
             (2%Z, Sample.utter "Body")],
            Returned final)
         /\ isReading final = false
         /\ currentSpeechIndex final = 3%Z
         /\ in_flight final = None.
Proof.
  apply (start_reads_to_the_end Sample.loaded).
  - by vm_compute.
  - by eexists.
  - by vm_compute.
Defined.

(** [nextSegment] while "Body", the last segment, is being read: the
    player goes on reading, from "Intro". *)
Lemma next_on_last_segment_wraps_witness :
  exists first st',
    head (contentSegments Sample.reading_body) = Some first
    /\ nextSegment Sample.reading_body = Returned st'
    /\ isReading st' = true
    /\ currentSpeechIndex st' = 0%Z
    /\ in_flight st' = Some (utterance_of Sample.reading_body first).
Proof.
  apply (next_on_last_segment_wraps Sample.reading_body
           (mkSynth [Sample.utter "Body"] false)).
  - by vm_compute.
  - by vm_compute.
  - by vm_compute.
  - by vm_compute.
Defined.

(** C2, as stated, fails: with the cursor on the last of three segments
    and the player reading, [nextSegment] does not halt playback with the
    cursor past the end; the player is still reading, the cursor is back
    at 0 and "Intro" is in flight. *)
Lemma next_on_last_segment_keeps_reading :
  isReading Sample.reading_body = true
  /\ length (contentSegments Sample.reading_body) = 3%nat
  /\ currentSpeechIndex Sample.reading_body = 2%Z
  /\ isReading (state_of (nextSegment Sample.reading_body)) = true
  /\ currentSpeechIndex (state_of (nextSegment Sample.reading_body)) = 0%Z
  /\ in_flight (state_of (nextSegment Sample.reading_body))
     = Some (Sample.utter "Intro").
Proof. by vm_compute. Qed.

(** An extraction that finds no active tab, after a successful one. *)
Lemma failed_extraction_clears_content_witness :
  getPageContent Sample.host_no_tab Sample.loaded =
    set_isLoading false
      (set_error "No active tab found"
        (set_contentSegments [] (set_pageContent (Some "") Sample.loaded)))
  /\ error (getPageContent Sample.host_no_tab Sample.loaded)
     = "No active tab found"
  /\ pageTitle (getPageContent Sample.host_no_tab Sample.loaded)
     = pageTitle Sample.loaded
  /\ contentSegments (getPageContent Sample.host_no_tab Sample.loaded) = []
  /\ pageContent (getPageContent Sample.host_no_tab Sample.loaded) = Some "".
Proof.
  apply (failed_extraction_clears_content Sample.host_no_tab Sample.loaded
           (ErrorObj "No active tab found")).
  reflexivity.
Defined.

(** C3, as stated, fails: the popup holds three segments and the
    article's content; after an extraction that fails for want of an
    active tab it holds no segments and the empty content. *)
Lemma failed_extraction_loses_segments :
  contentSegments Sample.loaded = Sample.article_segments
  /\ pageContent Sample.loaded = Some "<p>Intro</p>"
  /\ extract_try Sample.host_no_tab (getPageContent_begin Sample.loaded)
     = Raised (ErrorObj "No active tab found")
  /\ contentSegments (getPageContent Sample.host_no_tab Sample.loaded) = []
  /\ contentSegments (getPageContent Sample.host_no_tab Sample.loaded)
     <> contentSegments Sample.loaded
  /\ pageContent (getPageContent Sample.host_no_tab Sample.loaded) = Some ""
  /\ pageContent (getPageContent Sample.host_no_tab Sample.loaded)
     <> pageContent Sample.loaded.
Proof. by vm_compute. Qed.

(** The three kinds of failed extraction and their messages. *)
Example failed_extraction_kinds :
  extract_try Sample.host_no_tab Sample.loaded
    = Raised (ErrorObj "No active tab found")
  /\ extract_try Sample.host_inject_fails Sample.loaded
     = Raised (ErrorObj "Cannot access contents of the page")
  /\ extract_try Sample.host_parse_fails Sample.loaded
     = Raised (ErrorObj "Failed to parse content")
  /\ contentSegments (getPageContent Sample.host_inject_fails Sample.loaded) = []
  /\ contentSegments (getPageContent Sample.host_parse_fails Sample.loaded) = [].
Proof. by vm_compute. Qed.

(** The engine fails on "Heading", the second segment. *)
Lemma utterance_error_then_start_resumes_witness :
  isReading (signal_error Sample.reading_heading) = false
  /\ error (signal_error Sample.reading_heading) = "Error during speech synthesis"
  /\ currentSpeechIndex (signal_error Sample.reading_heading) = 1%Z
  /\ exists st2,
       startReading (signal_error Sample.reading_heading) = Returned st2
       /\ isReading st2 = true
       /\ currentSpeechIndex st2 = 1%Z
       /\ in_flight st2 = Some (Sample.utter "Heading").
Proof.
  apply (utterance_error_then_start_resumes Sample.reading_heading
           (Sample.utter "Heading") (mkSegment "Heading" Sample.h1 true)).
  - by vm_compute.
  - by vm_compute.
  - by vm_compute.
Defined.

(** C4, as stated, fails: after an utterance error at cursor 1,
    [startReading] does not restart from segment 0; it reads "Heading",
    the segment at cursor 1, again. *)
Lemma start_after_error_stays_at_cursor :
  currentSpeechIndex Sample.failed_at_heading = 1%Z
  /\ isReading Sample.failed_at_heading = false
  /\ currentSpeechIndex (state_of (startReading Sample.failed_at_heading)) = 1%Z
  /\ currentSpeechIndex (state_of (startReading Sample.failed_at_heading)) <> 0%Z
  /\ in_flight (state_of (startReading Sample.failed_at_heading))
     = Some (Sample.utter "Heading").
Proof. by vm_compute. Qed.

(** C5, as stated, fails: the error slot holds the message of an
    utterance error; [startReading] succeeds and the message is still
    there. *)
Lemma start_keeps_old_error :
  error Sample.failed_at_heading = "Error during speech synthesis"
  /\ isReading (state_of (startReading Sample.failed_at_heading)) = true
  /\ error (state_of (startReading Sample.failed_at_heading))
     = "Error during speech synthesis"
  /\ error (state_of (startReading Sample.failed_at_heading)) <> "".
Proof. by vm_compute. Qed.

(** Three times [prevSegment] while "Heading" is being read. *)
Lemma cursor_never_negative_witness :
  (0 <= currentSpeechIndex
          (Sample.run_sample [Previous; Previous; Previous] Sample.reading_heading))%Z
  /\ returns (prevSegment Sample.reading_heading) = true
  /\ prevSegment Sample.stopped_at_body = Returned Sample.stopped_at_body
  /\ currentSpeechIndex (state_of (prevSegment Sample.reading_heading)) = 0%Z.
Proof.
  destruct (cursor_never_negative Sample.print [Previous; Previous; Previous]
              Sample.reading_heading) as (H1 & H2 & _ & H4).
  destruct (cursor_never_negative Sample.print [] Sample.stopped_at_body)
    as (_ & _ & H3 & _).
  split; [apply H1; by vm_compute |].
  split; [exact H2 |].
  split; [apply H3; by vm_compute |].
  apply H4; by vm_compute.
Defined.

(** C6, as stated, fails: in a popup stopped at cursor 2, [prevSegment]
    does not take the cursor to 1; it does nothing. *)
Lemma previous_when_stopped_keeps_cursor :
  isReading Sample.stopped_at_body = false
  /\ currentSpeechIndex Sample.stopped_at_body = 2%Z
  /\ prevSegment Sample.stopped_at_body = Returned Sample.stopped_at_body
  /\ currentSpeechIndex (state_of (prevSegment Sample.stopped_at_body)) = 2%Z
  /\ currentSpeechIndex (state_of (prevSegment Sample.stopped_at_body))
     <> Z.max 0 (currentSpeechIndex Sample.stopped_at_body - 1).
Proof. by vm_compute. Qed.

(** C7, as stated, fails: after a click on Next and the engine's error
    signal for the utterance that the click cancelled, the player is not
    reading and "Heading" is queued; [stopReading] cancels it, so it is
    not a no-op. *)
Lemma stop_when_not_playing_cancels :
  attainable 1%N Sample.print Sample.parse Sample.interrupted
  /\ isReading Sample.interrupted = false
  /\ in_flight Sample.interrupted = Some (Sample.utter "Heading")
  /\ in_flight (stopReading Sample.interrupted) = None
  /\ stopReading Sample.interrupted <> Sample.interrupted.
Proof.
  split.
  { exists ∅, Sample.window,
      [Does ExtractBegin; Does (ExtractFinish Sample.host_ok);
       Does Start; Does Next; LateError].
    by vm_compute. }
  split; [by vm_compute |]. split; [by vm_compute |].
  split; [by vm_compute |].
  intros Heq. apply (f_equal in_flight) in Heq. by vm_compute in Heq.
Qed.

(** [stopReading] while "Body" is being read, in the popup stopped at
    "Body", and with "Heading" queued while the player is not reading. *)
Lemma stop_cancels_and_is_idempotent_witness :
  (isReading (stopReading Sample.reading_body) = false
   /\ in_flight (stopReading Sample.reading_body) = None
   /\ stopReading (stopReading Sample.reading_body)
      = stopReading Sample.reading_body)
  /\ stopReading Sample.stopped_at_body = Sample.stopped_at_body
  /\ (isReading (stopReading Sample.interrupted) = false
      /\ in_flight (stopReading Sample.interrupted) = None
      /\ stopReading (stopReading Sample.interrupted)
         = stopReading Sample.interrupted
      /\ (stopReading Sample.interrupted = Sample.interrupted
          <-> in_flight Sample.interrupted = None)).
Proof.
  split; [| split].
  - destruct (stop_cancels_and_is_idempotent 1%N Sample.print Sample.parse
                Sample.reading_body) as (A1 & A2 & _ & _ & A5 & _).
    { exists ∅, Sample.window,
        [Does ExtractBegin; Does (ExtractFinish Sample.host_ok);
         Does Start; Does UtteranceEnd; Does UtteranceEnd].
      vm_compute. reflexivity. }
    exact (conj A1 (conj A2 A5)).
  - destruct (stop_cancels_and_is_idempotent 1%N Sample.print Sample.parse
                Sample.stopped_at_body) as (_ & _ & _ & _ & _ & B6).
    { exists ∅, Sample.window,
        [Does ExtractBegin; Does (ExtractFinish Sample.host_ok);
         Does Start; Does UtteranceEnd; Does UtteranceEnd; Does Stop].
      vm_compute. reflexivity. }
    assert (R : isReading Sample.stopped_at_body = false)
      by (vm_compute; reflexivity).
    destruct (B6 R) as [_ B]. clear B6 R. apply B. vm_compute. reflexivity.
  - destruct (stop_cancels_and_is_idempotent 1%N Sample.print Sample.parse
                Sample.interrupted) as (C1 & C2 & _ & _ & C5 & C6).
    { exists ∅, Sample.window,
        [Does ExtractBegin; Does (ExtractFinish Sample.host_ok);
         Does Start; Does Next; LateError].
      vm_compute. reflexivity. }
    assert (R : isReading Sample.interrupted = false)
      by (clear; vm_compute; reflexivity).
    exact (conj C1 (conj C2 (conj C5 (C6 R)))).
Defined.

(** [startReading] with no segments, and with segments but no engine. *)
Lemma start_reports_failed_checks_witness :
  startReading Sample.fresh
    = Returned (set_error "No content to read" Sample.fresh)
  /\ startReading Sample.loaded_mute
     = Returned (set_error "Speech synthesis not available" Sample.loaded_mute)
  /\ isReading (state_of (startReading Sample.loaded_mute)) = false
  /\ returns (startReading Sample.loaded) = true.
Proof.
  destruct (start_reports_failed_checks 1%N Sample.print Sample.parse Sample.fresh)
    as (H1 & _).
  destruct (start_reports_failed_checks 1%N Sample.print Sample.parse
              Sample.loaded_mute) as (_ & H2 & H3 & _).
  destruct (start_reports_failed_checks 1%N Sample.print Sample.parse
              Sample.loaded) as (_ & _ & _ & H4).
  split; [apply H1; by vm_compute |].
  split; [apply H2; by vm_compute |].
  split; [by destruct H3 as (-> & _); [right; by vm_compute |] |].
  apply H4. apply (sample_reachable [ExtractBegin; ExtractFinish Sample.host_ok]).
Defined.

(** The rate set to 2: ["2"] is stored under the rate's key, and a popup
    mounted over that store starts with rate 2. *)
Lemma settings_written_through_and_reloaded_witness :
  getItem key_rate (write_speechRate Sample.print 2%N Sample.loaded) = Some "2"
  /\ speechRate
       (mounted 1%N Sample.print Sample.parse
          (localStorage (write_speechRate Sample.print 2%N Sample.loaded))
          Sample.window) = 2%N.
Proof.
  destruct (settings_written_through_and_reloaded 1%N Sample.print Sample.parse
              sample_parse_print Sample.loaded
              (sample_reachable [ExtractBegin; ExtractFinish Sample.host_ok]))
    as (H1 & _ & _ & H4 & _).
  split; [apply (H1 2%N); by vm_compute | apply (H4 2%N Sample.window)].
Defined.

(** A run of player operations from the loaded popup, ending while
    reading. *)
Lemma reading_needs_segments_and_engine_witness :
  (contentSegments
     (Sample.run_sample [Start; UtteranceEnd; Next; Previous; TogglePause]
        Sample.loaded) <> []
   /\ is_Some
        (speechSynthesis
           (Sample.run_sample [Start; UtteranceEnd; Next; Previous; TogglePause]
              Sample.loaded)))
  /\ (contentSegments Sample.loaded <> [] /\ is_Some (speechSynthesis Sample.loaded))
  /\ isReading (step Sample.print Next Sample.loaded) = false.
Proof.
  destruct (reading_needs_segments_and_engine Sample.print
              [Start; UtteranceEnd; Next; Previous; TogglePause] Sample.loaded)
    as (H1 & H2 & H3).
  split; [| split].
  - apply H1; [by repeat constructor | by vm_compute | by vm_compute].
  - apply H2; by vm_compute.
  - apply H3; by vm_compute.
Defined.

(** Outside the player's own operations: an extraction begun while the
    player is reading empties the segment list and leaves the reading
    flag up until the utterance in flight ends. *)
Example extraction_begun_while_reading :
  isReading (Sample.run_sample [Start; ExtractBegin] Sample.loaded) = true
  /\ contentSegments (Sample.run_sample [Start; ExtractBegin] Sample.loaded) = []
  /\ isReading
       (Sample.run_sample [Start; ExtractBegin; UtteranceEnd] Sample.loaded)
     = false.
Proof. by vm_compute. Qed.

(** * Examples for the further properties *)

Lemma sample_reachable_reading_heading :
  reachable 1%N Sample.print Sample.parse Sample.reading_heading.
Proof.
  exists ∅, Sample.window,
    [ExtractBegin; ExtractFinish Sample.host_ok; Start; UtteranceEnd].
  by vm_compute.
Qed.

Lemma sample_reachable_stopped :
  reachable 1%N Sample.print Sample.parse Sample.stopped_at_body.
Proof.
  exists ∅, Sample.window,
    [ExtractBegin; ExtractFinish Sample.host_ok; Start; UtteranceEnd;
     UtteranceEnd; Stop].
  by vm_compute.
Qed.

(** The end of "Heading" is signalled. *)
Lemma no_operation_throws_witness :
  returns (run_op Sample.print UtteranceEnd Sample.reading_heading) = true.
Proof.
  apply (no_operation_throws 1%N Sample.print Sample.parse UtteranceEnd
           Sample.reading_heading).
  exact sample_reachable_reading_heading.
Defined.

(** The queue after a click on Next while "Intro" was being read, and
    the engine's error signal for "Intro", which the click cancelled. *)
Lemma queue_holds_at_most_one_witness :
  speechSynthesis Sample.interrupted
    = Some (mkSynth [Sample.utter "Heading"] false)
  /\ (length (pending (mkSynth [Sample.utter "Heading"] false)) <= 1)%nat
  /\ isReading Sample.reading_intro = true
  /\ is_Some (speechSynthesis
               (happenings Sample.print
                  [Does ExtractBegin; Does (ExtractFinish Sample.host_ok);
                   Does Start]
                  (mounted 1%N Sample.print Sample.parse ∅ Sample.window))).
Proof.
  split; [vm_compute; reflexivity |].
  split.
  - destruct (queue_holds_at_most_one 1%N Sample.print Sample.parse
                ∅ Sample.window
                [Does ExtractBegin; Does (ExtractFinish Sample.host_ok);
                 Does Start; Does Next; LateError]) as (H1 & _).
    { repeat constructor; discriminate. }
    apply H1. vm_compute. reflexivity.
  - split; [vm_compute; reflexivity |].
    destruct (queue_holds_at_most_one 1%N Sample.print Sample.parse
                ∅ Sample.window
                [Does ExtractBegin; Does (ExtractFinish Sample.host_ok);
                 Does Start]) as (_ & H2).
    { repeat constructor; discriminate. }
    apply H2. vm_compute. reflexivity.
Defined.

Lemma togglePause_twice_witness :
  togglePause (togglePause Sample.reading_heading) = Sample.reading_heading
  /\ in_flight (togglePause Sample.reading_heading)
     = in_flight Sample.reading_heading
  /\ exists synth',
       speechSynthesis (togglePause Sample.reading_heading) = Some synth'
       /\ pending synth' = [Sample.utter "Heading"]
       /\ paused synth' = true.
Proof.
  destruct (togglePause_twice Sample.reading_heading)
    as (H1 & _ & _ & H4 & _ & H6).
  split; [exact H1 |]. split; [exact H4 |].
  apply (H6 (mkSynth [Sample.utter "Heading"] false)). by vm_compute.
Defined.

(** The voice "Zira" is selected and the window has "Bob" and "Alice":
    "Intro" is spoken without a voice. *)
Lemma selected_voice_or_none_witness :
  utterance_of Sample.reading_with_zira (mkSegment "Intro" Sample.p false)
    = mkUtterance "Intro" 1%N 1%N None
  /\ in_flight Sample.reading_with_zira = Some (mkUtterance "Intro" 1%N 1%N None)
  /\ (voice_name Sample.alice = speechVoice Sample.reading_intro
      /\ In Sample.alice (availableVoices Sample.reading_intro)
      /\ speechVoice Sample.reading_intro <> "").
Proof.
  destruct (selected_voice_or_none Sample.reading_with_zira
              (mkSegment "Intro" Sample.p false)) as (_ & H2).
  destruct (selected_voice_or_none Sample.reading_intro
              (mkSegment "Intro" Sample.p false)) as (H1 & _).
  split; [| split; [by vm_compute |]].
  - apply H2. intros voice Hin. vm_compute in Hin.
    destruct Hin as [<- | [<- | []]]; by vm_compute.
  - apply H1. by vm_compute.
Defined.

Lemma next_reads_following_segment_witness :
  exists st' synth',
    nextSegment Sample.reading_intro = Returned st'
    /\ isReading st' = true
    /\ currentSpeechIndex st' = (currentSpeechIndex Sample.reading_intro + 1)%Z
    /\ speechSynthesis st' = Some synth'
    /\ pending synth'
       = [utterance_of Sample.reading_intro (mkSegment "Heading" Sample.h1 true)]
    /\ error st' = error Sample.reading_intro.
Proof.
  apply (next_reads_following_segment Sample.reading_intro
           (mkSynth [Sample.utter "Intro"] false)).
  - by vm_compute.
  - by vm_compute.
  - by vm_compute.
Defined.

Lemma stop_then_start_resumes_witness :
  currentSpeechIndex (stopReading Sample.reading_heading)
    = currentSpeechIndex Sample.reading_heading
  /\ exists st' synth',
       startReading (stopReading Sample.reading_heading) = Returned st'
       /\ isReading st' = true
       /\ currentSpeechIndex st' = currentSpeechIndex Sample.reading_heading
       /\ speechSynthesis st' = Some synth'
       /\ pending synth'
          = [utterance_of Sample.reading_heading
               (mkSegment "Heading" Sample.h1 true)].
Proof.
  apply (stop_then_start_resumes Sample.reading_heading
           (mkSynth [Sample.utter "Heading"] false)).
  - by vm_compute.
  - by vm_compute.
Defined.

Lemma previous_after_next_witness :
  exists st1 st2,
    nextSegment Sample.reading_heading = Returned st1
    /\ prevSegment st1 = Returned st2
    /\ isReading st2 = true
    /\ currentSpeechIndex st2 = currentSpeechIndex Sample.reading_heading
    /\ in_flight st2
       = Some (utterance_of Sample.reading_heading
                 (mkSegment "Heading" Sample.h1 true)).
Proof.
  apply (previous_after_next Sample.reading_heading
           (mkSynth [Sample.utter "Heading"] false)
           (mkSegment "Heading" Sample.h1 true)
           (mkSegment "Body" Sample.p false)).
  - by vm_compute.
  - by vm_compute.
  - by vm_compute.
  - by vm_compute.
Defined.

(** The rate goes from 1 to 2 while "Intro" is being read. *)
Lemma rate_change_applies_to_next_utterance_witness :
  in_flight (write_speechRate Sample.print 2%N Sample.reading_intro)
    = Some (Sample.utter "Intro")
  /\ isReading (write_speechRate Sample.print 2%N Sample.reading_intro) = true
  /\ exists st' u',
       signal_end (write_speechRate Sample.print 2%N Sample.reading_intro)
         = Returned st'
       /\ in_flight st' = Some u'
       /\ utt_text u' = "Heading"
       /\ utt_rate u' = 2%N
       /\ utt_pitch u' = speechPitch Sample.reading_intro.
Proof.
  apply (rate_change_applies_to_next_utterance Sample.print Sample.reading_intro
           (mkSynth [Sample.utter "Intro"] false) (Sample.utter "Intro")
           (mkSegment "Heading" Sample.h1 true) 2%N).
  - by vm_compute.
  - by vm_compute.
  - by vm_compute.
  - by vm_compute.
Defined.

Lemma utterance_end_during_extraction_witness :
  isReading (getPageContent_begin Sample.reading_heading) = true
  /\ contentSegments (getPageContent_begin Sample.reading_heading) = []
  /\ in_flight (getPageContent_begin Sample.reading_heading)
     = Some (Sample.utter "Heading")
  /\ exists st',
       signal_end (getPageContent_begin Sample.reading_heading) = Returned st'
       /\ isReading st' = false
       /\ currentSpeechIndex st'
          = (currentSpeechIndex Sample.reading_heading + 1)%Z
       /\ in_flight st' = None.
Proof.
  apply (utterance_end_during_extraction Sample.reading_heading
           (mkSynth [Sample.utter "Heading"] false) (Sample.utter "Heading")).
  - by vm_compute.
  - by vm_compute.
  - by vm_compute.
  - by vm_compute.
Defined.

Lemma successful_extraction_effect_witness :
  exists article,
    ans_extract Sample.host_ok = Resolved (Some article)
    /\ truthy (a_error article) = false
    /\ pageTitle (getPageContent Sample.host_ok Sample.fresh) = a_title article
    /\ pageContent (getPageContent Sample.host_ok Sample.fresh) = a_content article
    /\ contentSegments (getPageContent Sample.host_ok Sample.fresh)
       = match a_segments article with
         | Some segments => segments
         | None => []
         end
    /\ error (getPageContent Sample.host_ok Sample.fresh) = ""
    /\ isLoading (getPageContent Sample.host_ok Sample.fresh) = false
    /\ getItem key_content (getPageContent Sample.host_ok Sample.fresh)
       = Some (to_item (a_content article))
    /\ getItem key_title (getPageContent Sample.host_ok Sample.fresh)
       = Some (to_item (a_title article))
    /\ getItem key_url (getPageContent Sample.host_ok Sample.fresh)
       = Some (to_item (a_url article)).
Proof.
  eapply (successful_extraction_effect Sample.host_ok Sample.fresh).
  reflexivity.
Defined.

(** A popup without speech synthesis, after an extraction. *)
Lemma mute_window_never_reads_witness :
  speechSynthesis Sample.loaded_mute = None
  /\ isReading Sample.loaded_mute = false
  /\ button_enabled StartReading Sample.loaded_mute = true
  /\ click StartReading Sample.loaded_mute
     = Returned (set_error "Speech synthesis not available" Sample.loaded_mute).
Proof.
  destruct (mute_window_never_reads 1%N Sample.print Sample.parse ∅ []
              [ExtractBegin; ExtractFinish Sample.host_ok])
    as (_ & H2 & H3 & H4).
  split; [exact H2 |]. split; [exact H3 |].
  apply H4. by vm_compute.
Defined.

(** The window has "Bob" (French) and "Alice" (English, default): Alice
    is selected and stored. *)
Lemma getVoices_selects_default_witness :
  availableVoices (getVoices [Sample.bob; Sample.alice] (initial 1%N ∅))
    = [Sample.bob; Sample.alice]
  /\ (speechVoice (getVoices [Sample.bob] Sample.fresh) = "Alice"
      /\ localStorage (getVoices [Sample.bob] Sample.fresh)
         = localStorage Sample.fresh)
  /\ exists voice,
       In voice [Sample.bob; Sample.alice]
       /\ speechVoice (getVoices [Sample.bob; Sample.alice] (initial 1%N ∅))
          = voice_name voice
       /\ (voice_name voice <> "" ->
           getItem key_voice (getVoices [Sample.bob; Sample.alice] (initial 1%N ∅))
             = Some (voice_name voice))
       /\ ((exists before after,
              [Sample.bob; Sample.alice] = (before ++ voice :: after)%list
              /\ includes "en" (voice_lang voice) = true
              /\ voice_default voice = true
              /\ forall w, In w before ->
                   includes "en" (voice_lang w) && voice_default w = false)
           \/ (head [Sample.bob; Sample.alice] = Some voice
               /\ forall w, In w [Sample.bob; Sample.alice] ->
                    includes "en" (voice_lang w) && voice_default w = false)).
Proof.
  destruct (getVoices_selects_default [Sample.bob; Sample.alice] (initial 1%N ∅))
    as (_ & H2 & _ & H4).
  destruct (getVoices_selects_default [Sample.bob] Sample.fresh)
    as (_ & _ & H3 & _).
  split; [apply H2; by vm_compute |].
  split; [apply H3; by vm_compute |].
  apply H4; by vm_compute.
Defined.

Lemma now_reading_renders_witness :
  exists segment,
    segment_at (currentSpeechIndex Sample.reading_heading)
      (contentSegments Sample.reading_heading) = Some segment
    /\ now_reading_text Sample.reading_heading = Some (text segment).
Proof.
  apply (now_reading_renders 1%N Sample.print Sample.parse Sample.reading_heading).
  - exact sample_reachable_reading_heading.
  - by vm_compute.
Defined.


(** A click on Start in the popup stopped at "Body". *)
Lemma start_button_starts_reading_witness :
  exists st' segment,
    click StartReading Sample.stopped_at_body = Returned st'
    /\ isReading st' = true
    /\ now_reading_shown st' = true
    /\ now_reading_text st' = Some (text segment)
    /\ in_flight st' = Some (utterance_of Sample.stopped_at_body segment)
    /\ contentSegments st' = contentSegments Sample.stopped_at_body
    /\ error st' = error Sample.stopped_at_body.
Proof.
  apply (start_button_starts_reading 1%N Sample.print Sample.parse
           Sample.stopped_at_body).
  - exact sample_reachable_stopped.
  - exists (mkSynth [] false). by vm_compute.
  - by vm_compute.
Defined.

(** The page function over two paragraphs (one blank), a heading and a
    list item. *)
Example extracted_segments_sample :
  extract_segments Sample.trim Sample.toLowerCase Sample.content_elements
    = [mkSegment "Intro" "p" false; mkSegment "Heading" "h1" true;
       mkSegment "Body" "li" false].
Proof. by vm_compute. Qed.

Lemma extraction_through_page_function_witness :
  (error (getPageContent (Sample.host_page Sample.page_run) Sample.fresh) = ""
   /\ contentSegments (getPageContent (Sample.host_page Sample.page_run) Sample.fresh)
      = extract_segments Sample.trim Sample.toLowerCase Sample.content_elements
   /\ Forall (fun segment => text segment <> "")
        (contentSegments
           (getPageContent (Sample.host_page Sample.page_run) Sample.fresh))
   /\ pageTitle (getPageContent (Sample.host_page Sample.page_run) Sample.fresh)
      = Some "A title"
   /\ pageContent (getPageContent (Sample.host_page Sample.page_run) Sample.fresh)
      = Some "<p>Intro</p>")
  /\ (error (getPageContent (Sample.host_page PageNoArticle) Sample.loaded)
        = "Failed to parse content"
      /\ contentSegments (getPageContent (Sample.host_page PageNoArticle) Sample.loaded)
         = [])
  /\ (error (getPageContent (Sample.host_page (PageThrew "TypeError: x"))
               Sample.loaded) = "TypeError: x"
      /\ contentSegments
           (getPageContent (Sample.host_page (PageThrew "TypeError: x"))
              Sample.loaded) = []).
Proof.
  split; [| split].
  - apply (extraction_through_page_function Sample.trim Sample.toLowerCase
             (Sample.host_page Sample.page_run) [mkTab (Some 7%Z)]
             Sample.page_run Sample.fresh); reflexivity.
  - apply (extraction_through_page_function Sample.trim Sample.toLowerCase
             (Sample.host_page PageNoArticle) [mkTab (Some 7%Z)]
             PageNoArticle Sample.loaded); reflexivity.
  - apply (extraction_through_page_function Sample.trim Sample.toLowerCase
             (Sample.host_page (PageThrew "TypeError: x")) [mkTab (Some 7%Z)]
             (PageThrew "TypeError: x") Sample.loaded); [reflexivity .. |].
    by vm_compute.
Defined.

(** Three clicks on the counter. *)
Lemma counter_is_persisted_witness :
  Second.count
    (Second.increment N.succ Sample.print
       (Second.run N.succ Sample.print
          [Second.Increment; Second.Increment] Sample.second_fresh)) = 3%N
  /\ Second.getItem Second.key_count
       (Second.increment N.succ Sample.print
          (Second.run N.succ Sample.print
             [Second.Increment; Second.Increment] Sample.second_fresh))
     = Some "3"
  /\ Second.count
       (Second.mounted 0%N Sample.print Sample.parse
          (Second.localStorage
             (Second.run N.succ Sample.print
                [Second.Increment; Second.Increment] Sample.second_fresh)))
     = 2%N.
Proof.
  destruct (counter_is_persisted 0%N N.succ Sample.print Sample.parse
              sample_parse_print ∅ [Second.Increment; Second.Increment])
    as (H1 & H2 & H3).
  split; [exact H1 |]. split; [apply H2; by vm_compute | exact H3].
Defined.

Lemma second_extraction_effect_witness :
  (Second.pageContent
     (Second.getPageContent Sample.second_host_no_tab Sample.second_fresh)
     = Some ""
   /\ Second.error
        (Second.getPageContent Sample.second_host_no_tab Sample.second_fresh)
      = "No active tab found"
   /\ Second.localStorage
        (Second.getPageContent Sample.second_host_no_tab Sample.second_fresh)
      = Second.localStorage Sample.second_fresh)
  /\ exists article,
       Second.ans_extract Sample.second_host_ok = Resolved (Some article)
       /\ Second.pageContent
            (Second.getPageContent Sample.second_host_ok Sample.second_fresh)
          = a_content article
       /\ Second.error
            (Second.getPageContent Sample.second_host_ok Sample.second_fresh) = ""
       /\ Second.getItem key_content
            (Second.getPageContent Sample.second_host_ok Sample.second_fresh)
          = Some (to_item (a_content article))
       /\ Second.getItem key_title
            (Second.getPageContent Sample.second_host_ok Sample.second_fresh)
          = Some (to_item (a_title article))
       /\ Second.getItem key_url
            (Second.getPageContent Sample.second_host_ok Sample.second_fresh)
          = Some (to_item (a_url article)).
Proof.
  destruct (second_extraction_effect Sample.second_host_no_tab Sample.second_fresh)
    as (_ & _ & _ & H4 & _).
  destruct (second_extraction_effect Sample.second_host_ok Sample.second_fresh)
    as (_ & _ & _ & _ & H5).
  split.
  - apply (H4 (ErrorObj "No active tab found")). reflexivity.
  - eapply H5. by vm_compute.
Defined.

(** A document with two long paragraphs among four, and one with
    none. *)
Lemma readable_content_of_paragraphs_witness :
  Second.getReadableContent Sample.trim String.length Sample.document =
    Some (mkArticle None (Some "A title")
            (Some ("<p>A paragraph that is long enough.</p>"
                   ++ "<p>  Another paragraph, long enough too.  </p>"))
            None (Some "https://example.org/"))
  /\ Second.getReadableContent Sample.trim String.length Sample.document_short =
       Some (mkArticle None (Some "A title") (Some "<main>short</main>")
               None (Some "https://example.org/")).
Proof.
  destruct (readable_content_of_paragraphs Sample.trim String.length Sample.document)
    as (H1 & _).
  destruct (readable_content_of_paragraphs Sample.trim String.length Sample.document_short)
    as (_ & H2).
  split; [apply H1; by vm_compute | apply H2; by vm_compute].
Defined.
